(** * Verification of the knowledge-graph pipeline (main.py, qa.py)

    The development embeds the orchestration code of the two pipelines:
    the ingestion pipeline of [StarWarsKnowledgeGraphBuilder] (main.py) and
    the question answering of [StarWarsQASystem] (qa.py).

    Python values are modelled as follows: a [str] that is only passed on,
    compared or concatenated (names, paths, messages, questions) is a
    [string]; a [str] whose characters are counted or tested (the text of a
    page or of a chunk) is the list of its Unicode code points; a function
    that may raise returns a [result], the logger is the list of the records
    it was given, and the Neo4j store is a record of nodes, relationships,
    constraints and indexes on which the Cypher statements of the source are
    interpreted. *)

From Stdlib Require Import ZArith List Bool Lia PrimFloat Ascii String.
From stdpp Require Import base strings pretty gmap list.

Import ListNotations.
Open Scope string_scope.
Open Scope list_scope.

(** ** Python exceptions and results *)

Module Py.

(** The exception classes the two files raise or catch.  All of them derive
    from [Exception], which is what every [except] clause of the two files
    names; [ExternalError] stands for any [Exception] raised by a collaborator
    (LLM, graph store, PDF loader).  [KeyboardInterrupt] and [SystemExit] are
    not exceptions in this sense and are not modelled. *)
Inductive Exception : Type :=
| ValueError (msg : string)
| FileNotFoundError (msg : string)
| KeyError (key : string)
| IndexError (msg : string)
| ExternalError (msg : string).

(** [str(e)]: the message; [KeyError] shows the [repr] of its key. *)
Definition str (e : Exception) : string :=
  match e with
  | ValueError m | FileNotFoundError m | IndexError m | ExternalError m => m
  | KeyError k => "'" +:+ k +:+ "'"
  end.

(** Outcome of a call: it returns a value or raises. *)
Inductive result (A : Type) : Type :=
| Return (a : A)
| Raise (e : Exception).
Arguments Return {A} a.
Arguments Raise {A} e.

Definition bind {A B} (r : result A) (k : A -> result B) : result B :=
  match r with
  | Return a => k a
  | Raise e => Raise e
  end.

End Py.

Import Py.

Notation "'let!' x ':=' c1 'in' c2" := (Py.bind c1 (fun x => c2))
  (at level 10, x pattern, c1 at level 100, c2 at level 200).

(** ** Logging *)

Inductive Level : Type := INFO | WARNING | ERROR.

Record LogRecord : Type := { level : Level; message : string }.

Definition Log : Type := list LogRecord.

Definition logger_info (m : string) : LogRecord := {| level := INFO; message := m |}.
Definition logger_warning (m : string) : LogRecord := {| level := WARNING; message := m |}.
Definition logger_error (m : string) : LogRecord := {| level := ERROR; message := m |}.

(** ** Environment loader (main.py 25-31, qa.py 23-29) *)

Module Env.

(** [os.environ]: a mapping from names to values. *)
Abbreviation environ := (gmap string string).

Definition required_vars : list string :=
  ["OPENAI_API_KEY"; "NEO4J_URI"; "NEO4J_USERNAME"; "NEO4J_PASSWORD"].

(** [os.getenv(var)]: [None] when the name is absent. *)
Definition getenv (env : environ) (var : string) : option string := env !! var.

(** Truth value of [os.getenv(var)]: [None] and the empty string are falsy. *)
Definition truthy (v : option string) : bool :=
  match v with
  | Some s => negb (String.eqb s "")
  | None => false
  end.

Definition not_found (var : string) : string :=
  "Variável de ambiente " +:+ var +:+ " não encontrada".

(** The body of the [for var in required_vars] loop, over the remaining
    names; [os.environ[var] = os.getenv(var)] writes the value back. *)
Fixpoint setup_environment_loop (vars : list string) (env : environ)
  : result environ :=
  match vars with
  | [] => Return env
  | var :: rest =>
      match getenv env var with
      | Some v =>
          if truthy (Some v)
          then setup_environment_loop rest (<[var := v]> env)
          else Raise (ValueError (not_found var))
      | None => Raise (ValueError (not_found var))
      end
  end.

Definition setup_environment (env : environ) : result environ :=
  setup_environment_loop required_vars env.

(** A key is missing when it is absent or bound to the empty string. *)
Definition missing (env : environ) (var : string) : bool :=
  negb (truthy (getenv env var)).

End Env.

(** ** The graph store and the Cypher statements of the source *)

Module Neo4j.

(** Property values written by the statements of the source. *)
Inductive Value : Type :=
| VInt (z : Z)
| VStr (s : string).

Definition Value_eqb (a b : Value) : bool :=
  match a, b with
  | VInt x, VInt y => Z.eqb x y
  | VStr x, VStr y => String.eqb x y
  | _, _ => false
  end.

Definition Props : Type := list (string * Value).

Fixpoint prop (k : string) (ps : Props) : option Value :=
  match ps with
  | [] => None
  | (k', v) :: rest => if String.eqb k k' then Some v else prop k rest
  end.

Record Node : Type :=
  { node_id : nat; node_labels : list string; node_props : Props }.

Record Relationship : Type :=
  { rel_id : nat; rel_type : string; rel_start : nat; rel_end : nat }.

(** A uniqueness constraint or an index: its name and its schema. *)
Record SchemaRule : Type :=
  { rule_name : string; rule_label : string; rule_prop : string }.

Record Graph : Type :=
  { nodes : list Node;
    relationships : list Relationship;
    constraints : list SchemaRule;
    indexes : list SchemaRule }.

Definition empty_graph : Graph :=
  {| nodes := []; relationships := []; constraints := []; indexes := [] |}.

Definition has_label (l : string) (n : Node) : bool :=
  existsb (String.eqb l) (node_labels n).

Definition has_prop (k : string) (v : Value) (n : Node) : bool :=
  match prop k (node_props n) with
  | Some v' => Value_eqb v v'
  | None => false
  end.

(** *** Syntax: the clauses that occur in main.py and qa.py *)

(** A node pattern [(var:Label {k: v, ...})]; label and map are optional. *)
Record NodePattern : Type :=
  { pat_var : string; pat_label : option string; pat_props : Props }.

Inductive Clause : Type :=
| MATCH (p : NodePattern)                      (* MATCH (v:L {..}) *)
| MATCH_REL (r : string)                       (* MATCH ()-[r]->() *)
| OPTIONAL_MATCH_REL (r : string)              (* OPTIONAL MATCH ()-[r]->() *)
| CREATE (p : NodePattern)                     (* CREATE (v:L {..}) *)
| MERGE (p : NodePattern)                      (* MERGE (v:L {..}) *)
| CREATE_REL (a : string) (t : string) (b : string). (* CREATE (a)-[:T]->(b) *)

Inductive GroupKey : Type :=
| FirstLabel (v : string)                      (* labels(v)[0] *)
| TypeOf (v : string).                         (* type(v) *)

Inductive ReturnClause : Type :=
(* RETURN key AS k, count(v) AS c ORDER BY c DESC *)
| RETURN_GROUP_COUNT (key : GroupKey) (k : string) (v : string) (c : string)
(* RETURN count(DISTINCT n) AS a, count(r) AS b *)
| RETURN_COUNTS (n : string) (a : string) (r : string) (b : string).

Inductive Statement : Type :=
| Query (body : list Clause) (ret : option ReturnClause)
(* CREATE CONSTRAINT name IF NOT EXISTS FOR (x:L) REQUIRE x.p IS UNIQUE *)
| CREATE_CONSTRAINT (name x label key : string)
(* CREATE INDEX name IF NOT EXISTS FOR (x:L) ON (x.p) *)
| CREATE_INDEX (name x label key : string).

(** Is the clause a reading clause? *)
Definition reads (c : Clause) : bool :=
  match c with
  | MATCH _ | MATCH_REL _ | OPTIONAL_MATCH_REL _ => true
  | CREATE _ | MERGE _ | CREATE_REL _ _ _ => false
  end.

Definition read_only (s : Statement) : bool :=
  match s with
  | Query body _ => forallb reads body
  | CREATE_CONSTRAINT _ _ _ _ | CREATE_INDEX _ _ _ _ => false
  end.

(** *** Results handed to Python: a list of dicts *)

Inductive Cell : Type :=
| CNull
| CInt (z : Z)
| CStr (s : string).

Definition Cell_eqb (a b : Cell) : bool :=
  match a, b with
  | CNull, CNull => true
  | CInt x, CInt y => Z.eqb x y
  | CStr x, CStr y => String.eqb x y
  | _, _ => false
  end.

Definition Record_ : Type := list (string * Cell).
Definition Rows : Type := list Record_.

(** *** Semantics *)

(** What a variable of a statement is bound to. *)
Inductive Entity : Type :=
| ENode (id : nat)
| ERel (id : nat)
| ENull.

Definition Entity_eqb (a b : Entity) : bool :=
  match a, b with
  | ENode x, ENode y | ERel x, ERel y => Nat.eqb x y
  | ENull, ENull => true
  | _, _ => false
  end.

Definition is_null (e : option Entity) : bool :=
  match e with
  | Some (ENode _) | Some (ERel _) => false
  | Some ENull | None => true
  end.

(** A row of the binding table, and the table a clause works on. *)
Definition Row : Type := list (string * Entity).
Definition Table : Type := list Row.

Fixpoint bound (v : string) (row : Row) : option Entity :=
  match row with
  | [] => None
  | (v', e) :: rest => if String.eqb v v' then Some e else bound v rest
  end.

Definition matches (p : NodePattern) (n : Node) : bool :=
  match pat_label p with
  | Some l => has_label l n
  | None => true
  end
  && forallb (fun kv => has_prop (fst kv) (snd kv) n) (pat_props p).

Definition fresh_node_id (g : Graph) : nat :=
  S (list_max (map node_id (nodes g))).

Definition fresh_rel_id (g : Graph) : nat :=
  S (list_max (map rel_id (relationships g))).

(** Would adding [n] break a uniqueness constraint of [g]? *)
Definition violates (g : Graph) (n : Node) : bool :=
  existsb
    (fun c =>
       has_label (rule_label c) n &&
       match prop (rule_prop c) (node_props n) with
       | Some v =>
           existsb (fun m => has_label (rule_label c) m
                             && has_prop (rule_prop c) v m) (nodes g)
       | None => false
       end)
    (constraints g).

Definition add_node (n : Node) (g : Graph) : Graph :=
  {| nodes := nodes g ++ [n];
     relationships := relationships g;
     constraints := constraints g;
     indexes := indexes g |}.

Definition add_relationship (r : Relationship) (g : Graph) : Graph :=
  {| nodes := nodes g;
     relationships := relationships g ++ [r];
     constraints := constraints g;
     indexes := indexes g |}.

Definition constraint_violation : Exception :=
  ExternalError "Neo.ClientError.Schema.ConstraintValidationFailed".

Definition create_node (p : NodePattern) (g : Graph) : result (Graph * nat) :=
  let n := {| node_id := fresh_node_id g;
              node_labels := match pat_label p with
                             | Some l => [l]
                             | None => []
                             end;
              node_props := pat_props p |} in
  if violates g n then Raise constraint_violation
  else Return (add_node n g, node_id n).

Definition bind_node (v : string) (row : Row) (n : Node) : Row :=
  (v, ENode (node_id n)) :: row.

Definition bind_rel (v : string) (row : Row) (r : Relationship) : Row :=
  (v, ERel (rel_id r)) :: row.

(** One clause on one row.  Every statement of the source introduces each
    of its variables once, and [CREATE_REL] names variables bound by the
    [MATCH] clauses before it. *)
Definition exec_row (c : Clause) (row : Row) (g : Graph)
  : result (Graph * Table) :=
  match c with
  | MATCH p =>
      Return (g, map (bind_node (pat_var p) row) (filter (matches p) (nodes g)))
  | MATCH_REL r =>
      Return (g, map (bind_rel r row) (relationships g))
  | OPTIONAL_MATCH_REL r =>
      match relationships g with
      | [] => Return (g, [(r, ENull) :: row])
      | rs => Return (g, map (bind_rel r row) rs)
      end
  | CREATE p =>
      let! (g', id) := create_node p g in
      Return (g', [(pat_var p, ENode id) :: row])
  | MERGE p =>
      match filter (matches p) (nodes g) with
      | [] =>
          let! (g', id) := create_node p g in
          Return (g', [(pat_var p, ENode id) :: row])
      | ms => Return (g, map (bind_node (pat_var p) row) ms)
      end
  | CREATE_REL a t b =>
      match bound a row, bound b row with
      | Some (ENode x), Some (ENode y) =>
          let r := {| rel_id := fresh_rel_id g; rel_type := t;
                      rel_start := x; rel_end := y |} in
          Return (add_relationship r g, [row])
      | _, _ => Raise (ExternalError "Neo.ClientError.Statement.SemanticError")
      end
  end.

(** A clause runs once per row of the table, in order, on the graph the
    earlier rows left. *)
Fixpoint exec_clause (c : Clause) (t : Table) (g : Graph)
  : result (Graph * Table) :=
  match t with
  | [] => Return (g, [])
  | row :: rest =>
      let! (g1, out1) := exec_row c row g in
      let! (g2, out2) := exec_clause c rest g1 in
      Return (g2, out1 ++ out2)
  end.

Fixpoint exec_body (body : list Clause) (t : Table) (g : Graph)
  : result (Graph * Table) :=
  match body with
  | [] => Return (g, t)
  | c :: rest =>
      let! (g1, t1) := exec_clause c t g in
      exec_body rest t1 g1
  end.

(** *** RETURN: grouping and counting *)

Definition find_node (id : nat) (g : Graph) : option Node :=
  find (fun n => Nat.eqb (node_id n) id) (nodes g).

Definition find_rel (id : nat) (g : Graph) : option Relationship :=
  find (fun r => Nat.eqb (rel_id r) id) (relationships g).

(** The grouping key of a row: [labels(v)[0]] or [type(v)]; [null] when the
    entity has none. *)
Definition group_key (k : GroupKey) (g : Graph) (row : Row) : Cell :=
  match k with
  | FirstLabel v =>
      match bound v row with
      | Some (ENode id) =>
          match find_node id g with
          | Some n => match node_labels n with
                      | l :: _ => CStr l
                      | [] => CNull
                      end
          | None => CNull
          end
      | _ => CNull
      end
  | TypeOf v =>
      match bound v row with
      | Some (ERel id) =>
          match find_rel id g with
          | Some r => CStr (rel_type r)
          | None => CNull
          end
      | _ => CNull
      end
  end.

(** Add [inc] to the count of group [k], opening the group if it is new. *)
Fixpoint bump (k : Cell) (inc : nat) (acc : list (Cell * nat))
  : list (Cell * nat) :=
  match acc with
  | [] => [(k, inc)]
  | (k', c) :: rest =>
      if Cell_eqb k k' then (k', c + inc) :: rest
      else (k', c) :: bump k inc rest
  end.

(** [count(v)] counts the rows in which [v] is not null. *)
Definition counts (v : string) (row : Row) : nat :=
  if is_null (bound v row) then 0 else 1.

Definition group_count (k : GroupKey) (v : string) (g : Graph) (t : Table)
  : list (Cell * nat) :=
  fold_left (fun acc row => bump (group_key k g row) (counts v row) acc) t [].

(** [ORDER BY count DESC], by insertion. *)
Fixpoint insert_desc (x : Cell * nat) (l : list (Cell * nat))
  : list (Cell * nat) :=
  match l with
  | [] => [x]
  | y :: rest =>
      if Nat.leb (snd y) (snd x) then x :: y :: rest
      else y :: insert_desc x rest
  end.

Definition order_by_count_desc (l : list (Cell * nat)) : list (Cell * nat) :=
  fold_right insert_desc [] l.

(** The distinct non-null entities bound to [v]. *)
Fixpoint distinct (v : string) (t : Table) (seen : list Entity) : list Entity :=
  match t with
  | [] => seen
  | row :: rest =>
      match bound v row with
      | Some e =>
          if is_null (Some e) || existsb (Entity_eqb e) seen
          then distinct v rest seen
          else distinct v rest (seen ++ [e])
      | None => distinct v rest seen
      end
  end.

Definition count_rows (v : string) (t : Table) : nat :=
  list_sum (map (counts v) t).

Definition project (ret : option ReturnClause) (g : Graph) (t : Table) : Rows :=
  match ret with
  | None => []
  | Some (RETURN_GROUP_COUNT key k v c) =>
      map (fun kc => [(k, fst kc); (c, CInt (Z.of_nat (snd kc)))])
          (order_by_count_desc (group_count key v g t))
  | Some (RETURN_COUNTS n a r b) =>
      [[(a, CInt (Z.of_nat (length (distinct n t []))));
        (b, CInt (Z.of_nat (count_rows r t)))]]
  end.

(** *** Schema commands *)

Definition same_name_or_schema (name label key : string) (r : SchemaRule)
  : bool :=
  String.eqb name (rule_name r)
  || (String.eqb label (rule_label r) && String.eqb key (rule_prop r)).

(** Do two nodes labelled [label] already share a value of [prop]? *)
Fixpoint duplicated (label key : string) (ns : list Node) : bool :=
  match ns with
  | [] => false
  | n :: rest =>
      (has_label label n &&
       match prop key (node_props n) with
       | Some v => existsb (fun m => has_label label m && has_prop key v m) rest
       | None => false
       end)
      || duplicated label key rest
  end.

Definition add_constraint (r : SchemaRule) (g : Graph) : Graph :=
  {| nodes := nodes g;
     relationships := relationships g;
     constraints := constraints g ++ [r];
     indexes := indexes g |}.

Definition add_index (r : SchemaRule) (g : Graph) : Graph :=
  {| nodes := nodes g;
     relationships := relationships g;
     constraints := constraints g;
     indexes := indexes g ++ [r] |}.

(** *** [graph.query(statement)]

    A statement runs in a transaction of its own: when it raises, the graph
    is the one before the call.  [IF NOT EXISTS] makes a schema command do
    nothing when a rule of its kind with the same name or the same schema
    exists; it still raises on a conflicting rule of the other kind, and a
    constraint raises on data that already breaks it. *)
Definition query (s : Statement) (g : Graph) : Graph * result Rows :=
  match s with
  | Query body ret =>
      match exec_body body [[]] g with
      | Return (g', t) => (g', Return (project ret g' t))
      | Raise e => (g, Raise e)
      end
  | CREATE_CONSTRAINT name _ label key =>
      if existsb (same_name_or_schema name label key) (constraints g)
      then (g, Return [])
      else if existsb (same_name_or_schema name label key) (indexes g)
      then (g, Raise (ExternalError "Neo.ClientError.Schema.IndexAlreadyExists"))
      else if duplicated label key (nodes g)
      then (g, Raise (ExternalError "Neo.DatabaseError.Schema.ConstraintCreationFailed"))
      else (add_constraint {| rule_name := name; rule_label := label;
                              rule_prop := key |} g, Return [])
  | CREATE_INDEX name _ label key =>
      if existsb (same_name_or_schema name label key) (indexes g)
      then (g, Return [])
      else if existsb (same_name_or_schema name label key) (constraints g)
      then (g, Raise (ExternalError "Neo.ClientError.Schema.ConstraintAlreadyExists"))
      else (add_index {| rule_name := name; rule_label := label;
                         rule_prop := key |} g, Return [])
  end.

End Neo4j.

Import Neo4j.

(** ** Calls on a stateful collaborator

    A method of the graph connection, of the transformer or of the chain
    changes the state of the world and returns or raises. *)

Definition Call (W A : Type) : Type := W -> W * result A.

Definition ret {W A} (a : A) : Call W A := fun w => (w, Return a).

Definition lift {W A} (r : result A) : Call W A := fun w => (w, r).

Definition and_then {W A B} (c : Call W A) (k : A -> Call W B) : Call W B :=
  fun w =>
    match c w with
    | (w1, Return a) => k a w1
    | (w1, Raise e) => (w1, Raise e)
    end.

(** [try: body / except Exception as e: handler e] around calls. *)
Definition try_call {W A} (body : Call W A) (handler : Exception -> Call W A)
  : Call W A :=
  fun w =>
    match body w with
    | (w1, Return a) => (w1, Return a)
    | (w1, Raise e) => handler e w1
    end.

Notation "'do!' x ':=' c1 'in' c2" := (and_then c1 (fun x => c2))
  (at level 10, x pattern, c1 at level 100, c2 at level 200).

(** ** Python lists and dicts of query results *)

Module Dict.

(** [row[k]] on a result row. *)
Fixpoint getitem (k : string) (row : Record_) : result Cell :=
  match row with
  | [] => Raise (KeyError k)
  | (k', c) :: rest => if String.eqb k k' then Return c else getitem k rest
  end.

(** A dict with cells as keys keeps the order of first insertion. *)
Definition t : Type := list (Cell * Cell).

Fixpoint setitem (k v : Cell) (d : t) : t :=
  match d with
  | [] => [(k, v)]
  | (k', v') :: rest =>
      if Cell_eqb k k' then (k', v) :: rest else (k', v') :: setitem k v rest
  end.

(** [{row[kk]: row[vk] for row in rows}], continuing from [d]. *)
Fixpoint comprehension (kk vk : string) (rows : Rows) (d : t) : result t :=
  match rows with
  | [] => Return d
  | row :: rest =>
      let! k := getitem kk row in
      let! v := getitem vk row in
      comprehension kk vk rest (setitem k v d)
  end.

(** [rows[0]]. *)
Definition first (rows : Rows) : result Record_ :=
  match rows with
  | row :: _ => Return row
  | [] => Raise (IndexError "list index out of range")
  end.

End Dict.

(** ** Texts

    [len], [str.strip] and [re.split] work on the characters of a [str],
    which are Unicode code points: a text is the list of its code points. *)

Definition Text : Type := list N.

Module Unicode.

(** [c.isspace()] for one character: the white-space characters of Unicode,
    as CPython lists them. *)
Definition isspace (c : N) : bool :=
  (N.leb 9 c && N.leb c 13)                (* \t \n \v \f \r *)
  || (N.leb 28 c && N.leb c 32)            (* FS GS RS US and the space *)
  || N.eqb c 133 || N.eqb c 160            (* NEL, no-break space *)
  || N.eqb c 5760                          (* U+1680 *)
  || (N.leb 8192 c && N.leb c 8202)        (* U+2000 .. U+200A *)
  || N.eqb c 8232 || N.eqb c 8233          (* U+2028, U+2029 *)
  || N.eqb c 8239 || N.eqb c 8287          (* U+202F, U+205F *)
  || N.eqb c 12288.                        (* U+3000 *)

(** The code points of a UTF-8 byte sequence; a sequence cut short ends in
    U+FFFD.  It reads the string literals of this file as Python reads the
    literals of its source. *)
Fixpoint decode (bytes : list N) : Text :=
  match bytes with
  | [] => []
  | b0 :: rest =>
      if N.ltb b0 128 then b0 :: decode rest
      else
        match rest with
        | [] => [65533%N]
        | b1 :: rest1 =>
            if N.ltb b0 224
            then ((b0 - 192) * 64 + (b1 - 128))%N :: decode rest1
            else
              match rest1 with
              | [] => [65533%N]
              | b2 :: rest2 =>
                  if N.ltb b0 240
                  then ((b0 - 224) * 4096 + (b1 - 128) * 64 + (b2 - 128))%N
                       :: decode rest2
                  else
                    match rest2 with
                    | [] => [65533%N]
                    | b3 :: rest3 =>
                        ((b0 - 240) * 262144 + (b1 - 128) * 4096
                         + (b2 - 128) * 64 + (b3 - 128))%N
                        :: decode rest3
                    end
              end
        end
  end.

End Unicode.

(** The text of a string literal. *)
Definition text (s : string) : Text :=
  Unicode.decode (map N_of_ascii (list_ascii_of_string s)).

(** ** Documents and the text splitter *)

(** A langchain [Document]: its text and, as metadata, its page number. *)
Record Document : Type := { page_content : Text; page : nat }.

(** [CharacterTextSplitter(chunk_size, chunk_overlap, separator)], the class
    main.py instantiates at lines 122-126, with the defaults of its other
    options (the separator is literal and is not kept, chunks are stripped,
    length is [len]).  A text is the list of its characters. *)
Module Splitter.

Section Text.

Context {char : Type} `{EqDecision char}.
Variable isspace : char -> bool.
Variable chunk_size chunk_overlap : Z.
Variable separator : list char.

Fixpoint starts_with (sep text : list char) : bool :=
  match sep, text with
  | [], _ => true
  | _ :: _, [] => false
  | a :: sep', b :: text' => bool_decide (a = b) && starts_with sep' text'
  end.

(** [re.split(re.escape(separator), text)] for a non-empty separator, left
    to right: [skip] characters of a matched separator are still to be
    dropped, [piece] is the piece being read, in reverse. *)
Fixpoint split_scan (skip : nat) (piece : list char) (text : list char)
  : list (list char) :=
  match text with
  | [] => [rev piece]
  | c :: rest =>
      match skip with
      | S k => split_scan k piece rest
      | O =>
          if starts_with separator text
          then rev piece :: split_scan (length separator - 1) [] rest
          else split_scan O (c :: piece) rest
      end
  end.

Definition nonempty (s : list char) : bool :=
  match s with
  | [] => false
  | _ :: _ => true
  end.

(** The pieces between separators, the empty ones dropped; with an empty
    separator, the characters. *)
Definition split_text_with_regex (text : list char) : list (list char) :=
  match separator with
  | [] => map (fun c => [c]) text
  | _ :: _ => filter nonempty (split_scan O [] text)
  end.

(** [separator.join(docs)]. *)
Fixpoint join (docs : list (list char)) : list char :=
  match docs with
  | [] => []
  | [d] => d
  | d :: rest => d ++ separator ++ join rest
  end.

Fixpoint lstrip (s : list char) : list char :=
  match s with
  | [] => []
  | c :: rest => if isspace c then lstrip rest else s
  end.

Definition strip (s : list char) : list char :=
  rev (lstrip (rev (lstrip s))).

(** [_join_docs]: the joined and stripped text, [None] when it is empty. *)
Definition join_docs (docs : list (list char)) : option (list char) :=
  match strip (join docs) with
  | [] => None
  | text => Some text
  end.

Definition len (s : list char) : Z := Z.of_nat (length s).

Definition separator_len : Z := len separator.

(** The condition of the [while] loop and of the [if] before it. *)
Definition too_long (total _len : Z) (current_doc : list (list char)) : bool :=
  Z.ltb chunk_size
    (total + _len + (if Nat.ltb 0 (length current_doc) then separator_len else 0)).

(** The [while] loop of [_merge_splits]: drop pieces from the front of
    [current_doc] while it is longer than the overlap, or still too long for
    the next piece. *)
Fixpoint pop_front (_len : Z) (current_doc : list (list char)) (total : Z)
  : result (list (list char) * Z) :=
  if Z.ltb chunk_overlap total
     || (too_long total _len current_doc && Z.ltb 0 total)
  then
    match current_doc with
    | [] => Raise (IndexError "list index out of range")
    | first :: rest =>
        pop_front _len rest
          (total - (len first
                    + (if Nat.ltb 1 (length current_doc) then separator_len else 0)))
    end
  else Return (current_doc, total).

Definition emit (docs : list (list char)) (current_doc : list (list char))
  : list (list char) :=
  match join_docs current_doc with
  | Some doc => docs ++ [doc]
  | None => docs
  end.

(** The [for d in splits] loop of [_merge_splits] and the final flush. *)
Fixpoint merge_loop (splits : list (list char)) (docs : list (list char))
  (current_doc : list (list char)) (total : Z) : result (list (list char)) :=
  match splits with
  | [] => Return (emit docs current_doc)
  | d :: rest =>
      let _len := len d in
      let! (docs1, current_doc1, total1) :=
        (if too_long total _len current_doc
         then
           if Nat.ltb 0 (length current_doc)
           then
             let! (cd, tot) := pop_front _len current_doc total in
             Return (emit docs current_doc, cd, tot)
           else Return (docs, current_doc, total)
         else Return (docs, current_doc, total)) in
      let current_doc2 := current_doc1 ++ [d] in
      merge_loop rest docs1 current_doc2
        (total1 + _len
         + (if Nat.ltb 1 (length current_doc2) then separator_len else 0))
  end.

Definition merge_splits (splits : list (list char)) : result (list (list char)) :=
  merge_loop splits [] [] 0.

Definition split_text (text : list char) : result (list (list char)) :=
  merge_splits (split_text_with_regex text).

End Text.

End Splitter.

(** ** The ingestion pipeline (main.py) *)

Module Builder.

(** *** The statements of [create_constraints_and_indexes] *)

Definition constraints : list Statement :=
  [ CREATE_CONSTRAINT "personagem_nome" "p" "Personagem" "nome";
    CREATE_CONSTRAINT "filme_titulo" "f" "Filme" "título";
    CREATE_CONSTRAINT "planeta_nome" "p" "Planeta" "nome";
    CREATE_CONSTRAINT "nave_nome" "n" "Nave" "nome";
    CREATE_CONSTRAINT "faccao_nome" "f" "Facção" "nome" ].

Definition indexes : list Statement :=
  [ CREATE_INDEX "personagem_nome_idx" "p" "Personagem" "nome";
    CREATE_INDEX "filme_ano_idx" "f" "Filme" "ano";
    CREATE_INDEX "planeta_clima_idx" "p" "Planeta" "clima" ].

(** [statement.split()[-1]] for the schema commands: the last word of the
    text. *)
Definition last_word (s : Statement) : string :=
  match s with
  | CREATE_CONSTRAINT _ _ _ _ => "UNIQUE"
  | CREATE_INDEX _ x _ key => "(" +:+ x +:+ "." +:+ key +:+ ")"
  | Query _ _ => ""
  end.

(** *** The statements of [add_manual_knowledge] *)

Definition node (v l : string) (ps : Props) : NodePattern :=
  {| pat_var := v; pat_label := Some l; pat_props := ps |}.

Definition manual_data : list Statement :=
  [ (* Filmes da trilogia original *)
    Query
      [ CREATE (node "ep4" "Filme"
          [("título", VStr "Episódio IV: Uma Nova Esperança");
           ("ano", VInt 1977); ("diretor", VStr "George Lucas")]);
        CREATE (node "ep5" "Filme"
          [("título", VStr "Episódio V: O Império Contra-Ataca");
           ("ano", VInt 1980); ("diretor", VStr "Irvin Kershner")]);
        CREATE (node "ep6" "Filme"
          [("título", VStr "Episódio VI: O Retorno do Jedi");
           ("ano", VInt 1983); ("diretor", VStr "Richard Marquand")]) ]
      None;
    (* Personagens principais *)
    Query
      [ MERGE (node "luke" "Personagem"
          [("nome", VStr "Luke Skywalker"); ("espécie", VStr "Humano");
           ("planeta_natal", VStr "Tatooine"); ("lado_da_força", VStr "Jedi")]);
        MERGE (node "leia" "Personagem"
          [("nome", VStr "Leia Organa"); ("espécie", VStr "Humano");
           ("planeta_natal", VStr "Alderaan"); ("afiliação", VStr "Rebel Alliance")]);
        MERGE (node "han" "Personagem"
          [("nome", VStr "Han Solo"); ("espécie", VStr "Humano");
           ("planeta_natal", VStr "Corellia"); ("afiliação", VStr "Rebel Alliance")]);
        MERGE (node "vader" "Personagem"
          [("nome", VStr "Darth Vader"); ("espécie", VStr "Humano");
           ("planeta_natal", VStr "Tatooine"); ("lado_da_força", VStr "Sith")]) ]
      None;
    (* Planetas *)
    Query
      [ MERGE (node "tatooine" "Planeta"
          [("nome", VStr "Tatooine"); ("clima", VStr "Árido");
           ("tipo", VStr "Deserto"); ("população", VStr "Baixa")]);
        MERGE (node "alderaan" "Planeta"
          [("nome", VStr "Alderaan"); ("clima", VStr "Temperado");
           ("tipo", VStr "Montanhoso"); ("status", VStr "Destruído")]);
        MERGE (node "hoth" "Planeta"
          [("nome", VStr "Hoth"); ("clima", VStr "Gelado");
           ("tipo", VStr "Tundra"); ("população", VStr "Baixa")]) ]
      None;
    (* Relacionamentos familiares *)
    Query
      [ MATCH (node "luke" "Personagem" [("nome", VStr "Luke Skywalker")]);
        MATCH (node "leia" "Personagem" [("nome", VStr "Leia Organa")]);
        MATCH (node "vader" "Personagem" [("nome", VStr "Darth Vader")]);
        CREATE_REL "vader" "FILHO_DE" "luke";
        CREATE_REL "vader" "FILHO_DE" "leia";
        CREATE_REL "luke" "IRMÃO_DE" "leia" ]
      None ].

(** *** The queries of [validate_graph] *)

Definition any_node (v : string) : NodePattern :=
  {| pat_var := v; pat_label := None; pat_props := [] |}.

Definition node_counts_query : Statement :=
  Query [MATCH (any_node "n")]
        (Some (RETURN_GROUP_COUNT (FirstLabel "n") "label" "n" "count")).

Definition rel_counts_query : Statement :=
  Query [MATCH_REL "r"]
        (Some (RETURN_GROUP_COUNT (TypeOf "r") "relationship" "r" "count")).

Definition totals_query : Statement :=
  Query [MATCH (any_node "n"); OPTIONAL_MATCH_REL "r"]
        (Some (RETURN_COUNTS "n" "total_nodes" "r" "total_relationships")).

Record Stats : Type :=
  { node_counts : Dict.t;
    relationship_counts : Dict.t;
    totals : Record_ }.

(** *** Chunks and extracted graph documents *)

Record GraphNode : Type := { gn_id : string; gn_type : string }.

Record GraphRelationship : Type :=
  { gr_source : string; gr_target : string; gr_type : string }.

Record GraphDocument : Type :=
  { gd_nodes : list GraphNode;
    gd_relationships : list GraphRelationship;
    gd_source : Document }.

(** *** [load_and_process_documents] *)

(** The white space [str.strip] removes. *)
Definition isspace (c : N) : bool := Unicode.isspace c.

Definition chunk_size : Z := 1000.
Definition chunk_overlap : Z := 150.
Definition separator : Text := [10%N; 10%N].                    (* "\n\n" *)

(** [splitter.split_text(text)] for the splitter of lines 122-126. *)
Definition split_text (text : Text) : result (list Text) :=
  Splitter.split_text isspace chunk_size chunk_overlap separator text.

(** [splitter.split_documents(docs)]: every page is split on its own, and a
    chunk keeps the metadata of its page. *)
Fixpoint split_documents (docs : list Document) : result (list Document) :=
  match docs with
  | [] => Return []
  | doc :: rest =>
      let! texts := split_text (page_content doc) in
      let! chunks := split_documents rest in
      Return (map (fun t => {| page_content := t; page := page doc |}) texts
              ++ chunks)
  end.

Section Loading.

Context {W : Type}.

(** [Path(pdf_path).exists()] and [PyPDFLoader(pdf_path).load()]. *)
Variable path_exists : string -> W -> bool.
Variable loader_load : string -> Call W (list Document).

Definition loading (pdf_path : string) : LogRecord :=
  logger_info ("📄 Carregando PDF: " +:+ pdf_path).

Definition pages_loaded (docs : list Document) : LogRecord :=
  logger_info ("📄 " +:+ pretty (length docs) +:+ " páginas carregadas").

Definition chunks_created (chunks : list Document) : LogRecord :=
  logger_info ("📝 " +:+ pretty (length chunks) +:+ " chunks criados").

(** The log is written as the function goes: what was logged before a
    failure stays logged. *)
Definition load_and_process_documents (pdf_path : string) (w : W) (log : Log)
  : W * Log * result (list Document) :=
  if negb (path_exists pdf_path w)
  then (w, log,
        Raise (FileNotFoundError ("Arquivo não encontrado: " +:+ pdf_path)))
  else
    let log1 := log ++ [loading pdf_path] in
    match loader_load pdf_path w with
    | (w1, Raise e) => (w1, log1, Raise e)
    | (w1, Return docs) =>
        let log2 := log1 ++ [pages_loaded docs] in
        match split_documents docs with
        | Raise e => (w1, log2, Raise e)
        | Return chunks => (w1, log2 ++ [chunks_created chunks], Return chunks)
        end
    end.

End Loading.

Section Pipeline.

Context {W : Type}.

(** [self.graph.query], [self.transformer.convert_to_graph_documents] and
    [self.graph.add_graph_documents]. *)
Variable graph_query : Statement -> Call W Rows.
Variable convert_to_graph_documents : list Document -> Call W (list GraphDocument).
Variable add_graph_documents : list GraphDocument -> Call W unit.

(** [for s in statements: try: self.graph.query(s); logger.info(ok s)
    except Exception as e: logger.warning(ko e)]. *)
Fixpoint each_in_try (ok : Statement -> string) (ko : Exception -> string)
  (statements : list Statement) (w : W) (log : Log) : W * Log :=
  match statements with
  | [] => (w, log)
  | s :: rest =>
      match graph_query s w with
      | (w1, Return _) =>
          each_in_try ok ko rest w1 (log ++ [logger_info (ok s)])
      | (w1, Raise e) =>
          each_in_try ok ko rest w1 (log ++ [logger_warning (ko e)])
      end
  end.

Definition create_constraints_and_indexes (w : W) (log : Log) : W * Log :=
  let (w1, log1) :=
    each_in_try (fun c => "✅ Constraint criada: " +:+ last_word c)
                (fun e => "⚠️ Erro ao criar constraint: " +:+ str e)
                constraints w log in
  each_in_try (fun i => "✅ Índice criado: " +:+ last_word i)
              (fun e => "⚠️ Erro ao criar índice: " +:+ str e)
              indexes w1 log1.

Definition add_manual_knowledge (w : W) (log : Log) : W * Log :=
  each_in_try (fun _ => "✅ Conhecimento manual adicionado")
              (fun e => "⚠️ Erro ao adicionar conhecimento manual: " +:+ str e)
              manual_data w log.

Definition validate_graph : Call W Stats :=
  do! node_rows := graph_query node_counts_query in
  do! nc := lift (Dict.comprehension "label" "count" node_rows []) in
  do! rel_rows := graph_query rel_counts_query in
  do! rc := lift (Dict.comprehension "relationship" "count" rel_rows []) in
  do! total_rows := graph_query totals_query in
  do! total_stats := lift (Dict.first total_rows) in
  ret {| node_counts := nc; relationship_counts := rc; totals := total_stats |}.

(** *** [process_chunks_to_graph] *)

Record Totals : Type := { total_entities : nat; total_relationships : nat }.

(** [for graph_doc in graph_docs: total_entities += len(graph_doc.nodes);
    total_relationships += len(graph_doc.relationships)]. *)
Definition count_documents (graph_docs : list GraphDocument) (t : Totals)
  : Totals :=
  fold_left
    (fun acc d =>
       {| total_entities := total_entities acc + length (gd_nodes d);
          total_relationships :=
            total_relationships acc + length (gd_relationships d) |})
    graph_docs t.

Definition processing (i n : nat) : LogRecord :=
  logger_info ("🔄 Processando chunk " +:+ pretty (i + 1) +:+ "/" +:+ pretty n).

Definition progress (i n : nat) : LogRecord :=
  logger_info ("📊 Progresso: " +:+ pretty (i + 1) +:+ "/" +:+ pretty n
               +:+ " chunks processados").

Definition chunk_error (i : nat) (e : Exception) : LogRecord :=
  logger_error ("❌ Erro ao processar chunk " +:+ pretty (i + 1) +:+ ": "
                +:+ str e).

(** The body of [for i, chunk in enumerate(chunks)], from index [i] on;
    [n] is [len(chunks)]. *)
Fixpoint process_loop (n i : nat) (chunks : list Document)
  (w : W) (t : Totals) (log : Log) : W * Totals * Log :=
  match chunks with
  | [] => (w, t, log)
  | chunk :: rest =>
      let log1 := log ++ [processing i n] in
      match convert_to_graph_documents [chunk] w with
      | (w1, Raise e) =>
          process_loop n (S i) rest w1 t (log1 ++ [chunk_error i e])
      | (w1, Return graph_docs) =>
          let t1 := count_documents graph_docs t in
          match add_graph_documents graph_docs w1 with
          | (w2, Raise e) =>
              process_loop n (S i) rest w2 t1 (log1 ++ [chunk_error i e])
          | (w2, Return _) =>
              process_loop n (S i) rest w2 t1
                (if Nat.eqb ((i + 1) mod 10) 0
                 then log1 ++ [progress i n] else log1)
          end
      end
  end.

Definition no_totals : Totals :=
  {| total_entities := 0; total_relationships := 0 |}.

Definition total_extracted (t : Totals) : LogRecord :=
  logger_info ("📊 Total extraído: " +:+ pretty (total_entities t)
               +:+ " entidades, " +:+ pretty (total_relationships t)
               +:+ " relacionamentos").

Definition process_chunks_to_graph (chunks : list Document) (w : W) (log : Log)
  : W * nat * Log :=
  let '(w1, t, log1) := process_loop (length chunks) 0 chunks w no_totals log in
  (w1, total_entities t + total_relationships t, log1 ++ [total_extracted t]).

End Pipeline.

End Builder.

(** ** Question answering (qa.py) *)

Module QA.

(** An element of [response["intermediate_steps"]]: a dict that may hold a
    ["query"] and a ["context"], or some other value. *)
Inductive Step : Type :=
| StepDict (query : option string) (context : option Rows)
| StepOther.

(** The dict [self.qa_chain.invoke] returns. *)
Record Response : Type :=
  { resp_result : option string;
    resp_intermediate_steps : option (list Step) }.

(** The counters of the OpenAI callback handler. *)
Record Callback : Type := { total_tokens : nat; total_cost : float }.

(** The dict [ask_with_context] returns. *)
Record Answer : Type :=
  { question : string;
    answer : string;
    cypher_query : string;
    raw_results : Rows;
    tokens_used : nat;
    cost : float }.

(** *** The chain built by [setup_qa_chain] *)

Section Chain.

Context {W : Type}.

(** The collaborators of the chain: the LLM that writes the Cypher query
    from the schema and the question, the graph connection that runs it, and
    the LLM that words the answer from the rows. *)
Variable generate : string -> Call W string.
Variable execute : string -> Call W Rows.
Variable synthesize : string -> Rows -> Call W string.

(** Modelled from the spec: the [invoke] of the question-answering chain
    ([GraphCypherQAChain], instantiated at qa.py 108-122 and defined outside
    src/), section 4.7 steps 1 to 4: obtain a query, execute it retrieving at
    most [top_k] rows, synthesize the answer from those rows, and return the
    answer with the query text and the rows as intermediate steps. *)
Definition chain_invoke (top_k : nat) (q : string) : Call W Response :=
  do! generated_cypher := generate q in
  do! rows := execute generated_cypher in
  let context := firstn top_k rows in
  do! final_result := synthesize q context in
  ret {| resp_result := Some final_result;
         resp_intermediate_steps :=
           Some [StepDict (Some generated_cypher) None;
                 StepDict None (Some context)] |}.

(** [GraphCypherQAChain.from_llm(..., top_k=10,
    return_intermediate_steps=True)]. *)
Definition top_k : nat := 10.

Definition setup_qa_chain : string -> Call W Response := chain_invoke top_k.

End Chain.

(** *** [ask_with_context], [ask_simple], [get_graph_stats] *)

Section System.

Context {W : Type}.

(** [self.qa_chain.invoke({"query": question})], the counters the callback
    handler has gathered between two states of the world, and
    [self.graph.query]. *)
Variable qa_chain_invoke : string -> Call W Response.
Variable callback : W -> W -> Callback.
Variable graph_query : Statement -> Call W Rows.

(** The [for step in intermediate_steps] loop: the last ["query"] and the
    last ["context"] win. *)
Definition scan_steps (steps : list Step) : string * Rows :=
  fold_left
    (fun acc step =>
       match step with
       | StepDict q c =>
           (match q with Some x => x | None => fst acc end,
            match c with Some x => x | None => snd acc end)
       | StepOther => acc
       end)
    steps ("", []).

(** [response["result"]]. *)
Definition result_of (response : Response) : result string :=
  match resp_result response with
  | Some a => Return a
  | None => Raise (KeyError "result")
  end.

(** The body of the [try], entered in the world [w0]. *)
Definition answer_question (q : string) (w0 : W) : Call W Answer :=
  do! response := qa_chain_invoke q in
  let intermediate_steps :=
    match resp_intermediate_steps response with
    | Some steps => steps
    | None => []
    end in
  let (cypher, rows) := scan_steps intermediate_steps in
  do! a := lift (result_of response) in
  fun w1 =>
    let cb := callback w0 w1 in
    (w1, Return {| question := q; answer := a; cypher_query := cypher;
                   raw_results := rows; tokens_used := total_tokens cb;
                   cost := total_cost cb |}).

(** The dict returned by the [except Exception as e] branch. *)
Definition degraded (q : string) (e : Exception) : Answer :=
  {| question := q;
     answer := "Erro ao processar pergunta: " +:+ str e;
     cypher_query := "";
     raw_results := [];
     tokens_used := 0;
     cost := 0%float |}.

Definition ask_with_context (q : string) : Call W Answer :=
  fun w0 => try_call (answer_question q w0) (fun e => ret (degraded q e)) w0.

Definition ask_simple (q : string) : Call W string :=
  do! result := ask_with_context q in
  ret (answer result).

Record GraphStats : Type :=
  { stats_nodes : Dict.t; stats_relationships : Dict.t }.

Definition get_graph_stats : Call W GraphStats :=
  do! node_rows := graph_query Builder.node_counts_query in
  do! ns := lift (Dict.comprehension "label" "count" node_rows []) in
  do! rel_rows := graph_query Builder.rel_counts_query in
  do! rs := lift (Dict.comprehension "relationship" "count" rel_rows []) in
  ret {| stats_nodes := ns; stats_relationships := rs |}.

End System.

End QA.

(** ** The whole ingestion run (main.py) *)

Module Pipeline.

(** What the connection is asked to run: the statements above, and
    [MATCH p DETACH DELETE v], with [v] the variable of the pattern [p]. *)
Inductive Command : Type :=
| Run (s : Statement)
| MATCH_DETACH_DELETE (p : NodePattern).

(** The statement of [clear_existing_data]: [MATCH (n) DETACH DELETE n]. *)
Definition clear_statement : Command :=
  MATCH_DETACH_DELETE (Builder.any_node "n").

(** [DETACH DELETE] of one node: the node goes, and with it the
    relationships that start or end at it. *)
Definition detach_delete (id : nat) (g : Graph) : Graph :=
  {| nodes := List.filter (fun n => negb (Nat.eqb (node_id n) id)) (nodes g);
     relationships :=
       List.filter (fun r => negb (Nat.eqb (rel_start r) id)
                             && negb (Nat.eqb (rel_end r) id))
                   (relationships g);
     Neo4j.constraints := Neo4j.constraints g;
     Neo4j.indexes := Neo4j.indexes g |}.

(** The node bound to [v] is deleted for each row of the table. *)
Definition delete_rows (v : string) (t : Table) (g : Graph) : Graph :=
  fold_left (fun g row =>
               match bound v row with
               | Some (ENode id) => detach_delete id g
               | _ => g
               end) t g.

(** [graph.query] on the graph store, for every command. *)
Definition execute (c : Command) (g : Graph) : Graph * result Rows :=
  match c with
  | Run s => query s g
  | MATCH_DETACH_DELETE p =>
      match exec_body [MATCH p] [[]] g with
      | Return (g1, t) => (delete_rows (pat_var p) t g1, Return [])
      | Raise e => (g, Raise e)
      end
  end.

(** [str(value)] of a cell of a result row. *)
Definition str_cell (c : Cell) : string :=
  match c with
  | CNull => "None"
  | CInt z => pretty z
  | CStr s => s
  end.

Section Run.

Context {W : Type}.

(** The collaborators: [self.graph.query], the transformer, the graph
    writer, the file system and the PDF loader; and the text Python shows
    for a dict in an f-string. *)
Variable graph_query : Command -> Call W Rows.
Variable convert_to_graph_documents : list Document -> Call W (list Builder.GraphDocument).
Variable add_graph_documents : list Builder.GraphDocument -> Call W unit.
Variable path_exists : string -> W -> bool.
Variable loader_load : string -> Call W (list Document).
Variable repr_dict : Dict.t -> string.

Definition statement_query (s : Statement) : Call W Rows := graph_query (Run s).

Definition clear_existing_data (w : W) (log : Log) : W * Log :=
  match graph_query clear_statement w with
  | (w1, Return _) => (w1, log ++ [logger_info "🗑️ Dados existentes removidos"])
  | (w1, Raise e) =>
      (w1, log ++ [logger_warning ("⚠️ Erro ao limpar dados: " +:+ str e)])
  end.

Definition pipeline_error (e : Exception) : LogRecord :=
  logger_error ("❌ Erro na pipeline: " +:+ str e).

(** The four [logger.info] lines that show the statistics; the look-ups in
    [stats['totals']] raise [KeyError] on a row without the key. *)
Definition log_statistics (stats : Builder.Stats) (log : Log)
  : Log * result unit :=
  let log1 := log ++ [logger_info "✅ Pipeline concluída com sucesso!";
                      logger_info "📊 Estatísticas finais:"] in
  match Dict.getitem "total_nodes" (Builder.totals stats) with
  | Raise e => (log1, Raise e)
  | Return total_nodes =>
      let log2 := log1 ++ [logger_info ("   - Total de nós: "
                                        +:+ str_cell total_nodes)] in
      match Dict.getitem "total_relationships" (Builder.totals stats) with
      | Raise e => (log2, Raise e)
      | Return total_relationships =>
          (log2 ++ [logger_info ("   - Total de relacionamentos: "
                                 +:+ str_cell total_relationships);
                    logger_info ("   - Nós por tipo: "
                                 +:+ repr_dict (Builder.node_counts stats));
                    logger_info ("   - Relacionamentos por tipo: "
                                 +:+ repr_dict (Builder.relationship_counts stats))],
           Return tt)
      end
  end.

(** [run_pipeline(pdf_path, clear_existing)]: every failure inside the [try]
    is logged and raised again. *)
Definition run_pipeline (pdf_path : string) (clear_existing : bool)
  (w : W) (log : Log) : W * Log * result Builder.Stats :=
  let log0 :=
    log ++ [logger_info "🚀 Iniciando pipeline de construção do grafo de conhecimento"] in
  let (w1, log1) :=
    if clear_existing then clear_existing_data w log0 else (w, log0) in
  let (w2, log2) :=
    Builder.create_constraints_and_indexes statement_query w1 log1 in
  match Builder.load_and_process_documents path_exists loader_load
          pdf_path w2 log2 with
  | (w3, log3, Raise e) => (w3, log3 ++ [pipeline_error e], Raise e)
  | (w3, log3, Return chunks) =>
      let '(w4, total_extracted, log4) :=
        Builder.process_chunks_to_graph convert_to_graph_documents
          add_graph_documents chunks w3 log3 in
      let (w5, log5) := Builder.add_manual_knowledge statement_query w4 log4 in
      match Builder.validate_graph statement_query w5 with
      | (w6, Raise e) => (w6, log5 ++ [pipeline_error e], Raise e)
      | (w6, Return stats) =>
          match log_statistics stats log5 with
          | (log6, Raise e) => (w6, log6 ++ [pipeline_error e], Raise e)
          | (log6, Return _) => (w6, log6, Return stats)
          end
      end
  end.

End Run.

End Pipeline.

(** ** Construction of the two systems (main.py 19-45, qa.py 17-43) *)

Module Startup.

(** The arguments of [LLMGraphTransformer] in [setup_graph_transformer]. *)
Record Ontology : Type :=
  { allowed_nodes : list string;
    allowed_relationships : list string;
    node_properties : list string;
    relationship_properties : list string }.

Definition ontology : Ontology :=
  {| allowed_nodes :=
       ["Personagem"; "Filme"; "Planeta"; "Nave"; "Facção";
        "Espécie"; "Droide"; "Arma"; "Tecnologia"; "Evento";
        "Localização"; "Organização"];
     allowed_relationships :=
       ["APARECE_EM"; "PILOTA"; "PERTENCE_A"; "TEM_CENA_EM";
        "É_CONTROLADO_POR"; "NASCEU_EM"; "VIVE_EM"; "LUTA_CONTRA";
        "ALIADO_DE"; "FILHO_DE"; "MESTRE_DE"; "POSSUI"; "LOCALIZADO_EM";
        "ACONTECE_EM"; "PARTICIPA_DE"; "CRIADO_POR"; "USADO_POR"];
     node_properties :=
       ["nome"; "título"; "descrição"; "ano"; "diretor"; "população";
        "clima"; "tipo"; "fabricante"; "modelo"; "classe"; "lado_da_força";
        "planeta_natal"; "espécie"; "afiliação"; "status"];
     relationship_properties :=
       ["tipo"; "duração"; "importância"; "período"; "resultado"] |}.

(** [os.environ[key]]. *)
Definition environ_getitem (env : Env.environ) (key : string) : result string :=
  match env !! key with
  | Some v => Return v
  | None => Raise (KeyError key)
  end.

Section Init.

Context {W LLM Conn Tool : Type}.

(** [ChatOpenAI(temperature=0, model="gpt-3.5-turbo")],
    [Neo4jGraph(url, username, password)], and the last component built
    from the LLM and the connection: the transformer of main.py or the
    chain of qa.py. *)
Variable chat_openai : Call W LLM.
Variable neo4j_graph : string -> string -> string -> Call W Conn.
Variable make_tool : LLM -> Conn -> Call W Tool.

(** [setup_neo4j_connection]: the look-ups and the connection are inside the
    [try]; a failure is logged and raised again. *)
Definition setup_neo4j_connection (env : Env.environ) (w : W) (log : Log)
  : W * Log * result Conn :=
  let attempt : W * result Conn :=
    match environ_getitem env "NEO4J_URI" with
    | Raise e => (w, Raise e)
    | Return url =>
        match environ_getitem env "NEO4J_USERNAME" with
        | Raise e => (w, Raise e)
        | Return username =>
            match environ_getitem env "NEO4J_PASSWORD" with
            | Raise e => (w, Raise e)
            | Return password => neo4j_graph url username password w
            end
        end
    end in
  match attempt with
  | (w1, Return graph) =>
      (w1, log ++ [logger_info "✅ Conexão com Neo4j estabelecida"], Return graph)
  | (w1, Raise e) =>
      (w1, log ++ [logger_error ("❌ Erro ao conectar com Neo4j: " +:+ str e)],
       Raise e)
  end.

(** The object [__init__] leaves: the environment it wrote, the LLM, the
    connection and the transformer or chain. *)
Record System : Type :=
  { sys_environ : Env.environ; sys_llm : LLM; sys_graph : Conn; sys_tool : Tool }.

Definition init (env : Env.environ) (w : W) (log : Log)
  : W * Log * result System :=
  match Env.setup_environment env with
  | Raise e => (w, log, Raise e)
  | Return env1 =>
      match chat_openai w with
      | (w1, Raise e) => (w1, log, Raise e)
      | (w1, Return llm) =>
          match setup_neo4j_connection env1 w1 log with
          | (w2, log2, Raise e) => (w2, log2, Raise e)
          | (w2, log2, Return graph) =>
              match make_tool llm graph w2 with
              | (w3, Raise e) => (w3, log2, Raise e)
              | (w3, Return tool) =>
                  (w3, log2,
                   Return {| sys_environ := env1; sys_llm := llm;
                             sys_graph := graph; sys_tool := tool |})
              end
          end
      end
  end.

End Init.

End Startup.

(** ** The validation harnesses (qa.py 194-273) *)

From Stdlib Require Uint63.

Module Harness.

Definition test_questions : list string :=
  ["Quantos personagens existem no grafo?";
   "Quais são os filmes da trilogia original?";
   "Quais planetas têm clima árido?";
   "Quem são os Jedi no grafo?";
   "Quais eventos acontecem em Tatooine?";
   "Quantos planetas existem no grafo?"].

(** The questions of the [test_cases] of [demonstrate_anti_hallucination]. *)
Definition test_cases : list string :=
  ["Qual é a cor do sabre de luz do Mestre Yoda?";
   "Quantos filhos tem o Imperador Palpatine?";
   "Qual é o nome da mãe de Luke Skywalker?"].

Definition no_data_phrases : list string :=
  ["não encontrado"; "não disponível"; "não há"; "não existe";
   "não foi possível"; "sem informações"; "não consta"].

(** [needle in haystack] on strings. *)
Fixpoint contains (needle haystack : string) : bool :=
  match haystack with
  | EmptyString => String.prefix needle haystack
  | String _ rest => String.prefix needle haystack || contains needle rest
  end.

(** [bool(s)] for a string. *)
Definition nonempty (s : string) : bool := negb (String.eqb s "").

(** [float(n)] for a small count, and [a / t * 100]. *)
Definition float_of_nat (n : nat) : float :=
  PrimFloat.of_uint63 (Uint63.of_Z (Z.of_nat n)).

Definition percent (a t : nat) : float :=
  (float_of_nat a / float_of_nat t * 100)%float.

Record ValidationResult : Type :=
  { vr_question : string;
    vr_has_answer : bool;
    vr_cypher_generated : bool;
    vr_answer_length : nat;
    vr_tokens_used : nat }.

Record Validation : Type :=
  { total_questions : nat;
    answered_questions : nat;
    success_rate : float;
    results : list ValidationResult }.

Record CaseResult : Type :=
  { cr_question : string;
    cr_answer : string;
    cr_indicates_no_data : bool;
    cr_prevents_hallucination : bool }.

Record AntiHallucination : Type :=
  { ah_test_cases : list CaseResult;
    anti_hallucination_rate : float }.

Section Harness.

Context {W : Type}.

(** The chain and the callback of the system, and the two operations of
    [str] that depend on the characters of the text: [s.lower()] and
    [len(s)].  The calls to the logger are left out. *)
Variable qa_chain_invoke : string -> Call W QA.Response.
Variable callback : W -> W -> QA.Callback.
Variable lower : string -> string.
Variable len : string -> nat.

Definition ask (q : string) : Call W QA.Answer :=
  QA.ask_with_context qa_chain_invoke callback q.

Definition validation_result (q : string) (result : QA.Answer)
  : ValidationResult :=
  {| vr_question := q;
     vr_has_answer :=
       nonempty (QA.answer result)
       && negb (contains "não encontrado" (lower (QA.answer result)));
     vr_cypher_generated := nonempty (QA.cypher_query result);
     vr_answer_length := len (QA.answer result);
     vr_tokens_used := QA.tokens_used result |}.

(** The [for question in test_questions] loop. *)
Fixpoint validation_loop (questions : list string)
  (validation_results : list ValidationResult)
  : Call W (list ValidationResult) :=
  match questions with
  | [] => ret validation_results
  | q :: rest =>
      do! result := ask q in
      validation_loop rest (validation_results ++ [validation_result q result])
  end.

Definition validate_knowledge_base : Call W Validation :=
  do! validation_results := validation_loop test_questions [] in
  let total := length validation_results in
  let answered := length (filter (fun r => vr_has_answer r = true)
                            validation_results) in
  ret {| total_questions := total;
         answered_questions := answered;
         success_rate := percent answered total;
         results := validation_results |}.

Definition case_result (q : string) (result : QA.Answer) : CaseResult :=
  let indicates_no_data :=
    existsb (fun phrase => contains phrase (lower (QA.answer result)))
      no_data_phrases in
  {| cr_question := q;
     cr_answer := QA.answer result;
     cr_indicates_no_data := indicates_no_data;
     cr_prevents_hallucination := indicates_no_data |}.

(** The [for case in test_cases] loop. *)
Fixpoint cases_loop (questions : list string) (acc : list CaseResult)
  : Call W (list CaseResult) :=
  match questions with
  | [] => ret acc
  | q :: rest =>
      do! result := ask q in
      cases_loop rest (acc ++ [case_result q result])
  end.

Definition demonstrate_anti_hallucination : Call W AntiHallucination :=
  do! case_results := cases_loop test_cases [] in
  ret {| ah_test_cases := case_results;
         anti_hallucination_rate :=
           percent (length (filter (fun r => cr_prevents_hallucination r = true)
                              case_results))
                   (length case_results) |}.

End Harness.

End Harness.

(** * Properties *)

(** ** Environment loader *)

Section EnvFacts.

Import Env.

Lemma missing_false (env : environ) (var : string) :
  missing env var = false <-> exists s, env !! var = Some s /\ s <> "".
Proof.
  unfold missing, getenv, truthy. destruct (env !! var) as [s|] eqn:E.
  - rewrite negb_involutive. destruct (String.eqb_spec s "") as [->|N]; split.
    + discriminate.
    + intros (s' & [= <-] & N). now destruct N.
    + intros _. now exists s.
    + reflexivity.
  - split; [discriminate | intros (s & [=] & _)].
Qed.

Lemma missing_true (env : environ) (var : string) :
  missing env var = true <-> env !! var = None \/ env !! var = Some "".
Proof.
  unfold missing, getenv, truthy. destruct (env !! var) as [s|] eqn:E.
  - rewrite negb_involutive. destruct (String.eqb_spec s "") as [->|N]; split.
    + now right.
    + reflexivity.
    + discriminate.
    + intros [[=] | [= ->]]. now destruct N.
  - split; [now left | reflexivity].
Qed.

(** The loop stops at the first missing name and leaves the environment as
    it found it. *)
Lemma setup_environment_loop_find (vars : list string) (env : environ) :
  setup_environment_loop vars env =
  match find (missing env) vars with
  | Some var => Raise (ValueError (not_found var))
  | None => Return env
  end.
Proof.
  induction vars as [|var rest IH]; simpl; [reflexivity|].
  unfold missing at 1, getenv. destruct (env !! var) as [v|] eqn:E; simpl.
  - destruct (String.eqb v ""); simpl; [reflexivity|].
    rewrite (insert_id env var v E). exact IH.
  - reflexivity.
Qed.

Lemma find_first {A} (p : A -> bool) (pre : list A) (x : A) (post : list A) :
  Forall (fun y => p y = false) pre -> p x = true ->
  find p (pre ++ x :: post) = Some x.
Proof.
  induction 1 as [|y pre Hy _ IH]; intros Hx; simpl.
  - now rewrite Hx.
  - rewrite Hy. now apply IH.
Qed.

Lemma find_none_all {A} (p : A -> bool) (l : list A) :
  (forall y, In y l -> p y = false) -> find p l = None.
Proof.
  induction l as [|y l IH]; intros H; simpl; [reflexivity|].
  rewrite (H y (or_introl eq_refl)). apply IH. intros z Hz. apply H. now right.
Qed.

(** C6. [setup_environment] looks at the four required names in order.  On
    the first one that is absent or empty it raises a [ValueError] whose
    message names it; when the four are present and non-empty it returns,
    and the environment is unchanged. *)
Theorem setup_environment_checks_required_vars (env : environ) :
  (forall pre var post,
      required_vars = pre ++ var :: post ->
      Forall (fun v => exists s, env !! v = Some s /\ s <> "") pre ->
      env !! var = None \/ env !! var = Some "" ->
      setup_environment env =
      Raise (ValueError ("Variável de ambiente " +:+ var +:+ " não encontrada")))
  /\ ((forall var, In var required_vars ->
                   exists s, env !! var = Some s /\ s <> "") ->
      setup_environment env = Return env).
Proof.
  unfold setup_environment. split.
  - intros pre var post Hreq Hpre Hvar.
    rewrite setup_environment_loop_find, Hreq, (find_first _ pre var post).
    + reflexivity.
    + eapply Forall_impl; [exact Hpre|]. intros v Hv. now apply missing_false.
    + now apply missing_true.
  - intros Hall. rewrite setup_environment_loop_find, find_none_all.
    + reflexivity.
    + intros v Hv. apply missing_false. now apply Hall.
Qed.

(** Two environments: a complete one, and one without [NEO4J_URI]. *)
Definition env_complete : environ :=
  <["OPENAI_API_KEY" := "sk-test"]>
    (<["NEO4J_URI" := "bolt://localhost:7687"]>
       (<["NEO4J_USERNAME" := "neo4j"]>
          (<["NEO4J_PASSWORD" := "secret"]> ∅))).

Definition env_without_uri : environ :=
  <["OPENAI_API_KEY" := "sk-test"]>
    (<["NEO4J_USERNAME" := "neo4j"]>
       (<["NEO4J_PASSWORD" := "secret"]> ∅)).

Lemma setup_environment_checks_required_vars_witness :
  setup_environment env_complete = Return env_complete
  /\ setup_environment env_without_uri =
     Raise (ValueError "Variável de ambiente NEO4J_URI não encontrada").
Proof.
  split.
  - apply (proj2 (setup_environment_checks_required_vars env_complete)).
    intros var [<-|[<-|[<-|[<-|[]]]]].
    + exists "sk-test". split; [reflexivity | discriminate].
    + exists "bolt://localhost:7687". split; [reflexivity | discriminate].
    + exists "neo4j". split; [reflexivity | discriminate].
    + exists "secret". split; [reflexivity | discriminate].
  - apply (proj1 (setup_environment_checks_required_vars env_without_uri)
             ["OPENAI_API_KEY"] "NEO4J_URI" ["NEO4J_USERNAME"; "NEO4J_PASSWORD"]).
    + reflexivity.
    + constructor; [|constructor].
      exists "sk-test". split; [reflexivity | discriminate].
    + left. reflexivity.
Defined.

End EnvFacts.

(** ** Statement loops: every statement is attempted *)

Section Attempts.

Context {W : Type}.
Variable graph_query : Statement -> Call W Rows.

(** The connection, instrumented with the list of the statements it was
    asked to run. *)
Definition traced (s : Statement) : Call (W * list Statement) Rows :=
  fun wt =>
    match graph_query s (fst wt) with
    | (w1, r) => ((w1, snd wt ++ [s]), r)
    end.

Lemma each_in_try_trace ok ko (statements : list Statement) :
  forall w (issued : list Statement) log,
    snd (fst (Builder.each_in_try traced ok ko statements (w, issued) log))
    = issued ++ statements.
Proof.
  induction statements as [|s rest IH]; intros w issued log; simpl.
  - now rewrite app_nil_r.
  - unfold traced at 1; simpl. destruct (graph_query s w) as [w1 [rows|e]];
      rewrite IH, <- app_assoc; reflexivity.
Qed.

Lemma each_in_try_log ok ko (statements : list Statement) :
  forall (w : W) log,
    length (snd (Builder.each_in_try graph_query ok ko statements w log))
    = length log + length statements.
Proof.
  induction statements as [|s rest IH]; intros w log; simpl; [lia|].
  destruct (graph_query s w) as [w1 [rows|e]];
    rewrite IH, length_app; simpl; lia.
Qed.

End Attempts.

(** ** Schema setup on the graph store *)

Section SchemaFacts.

Definition is_schema_command (s : Statement) : bool :=
  match s with
  | CREATE_CONSTRAINT _ _ _ _ | CREATE_INDEX _ _ _ _ => true
  | Query _ _ => false
  end.

(** The cases in which a schema command leaves the graph as it is. *)
Definition settled (s : Statement) (g : Graph) : bool :=
  match s with
  | CREATE_CONSTRAINT name _ label key =>
      existsb (same_name_or_schema name label key) (Neo4j.constraints g)
      || existsb (same_name_or_schema name label key) (Neo4j.indexes g)
      || duplicated label key (nodes g)
  | CREATE_INDEX name _ label key =>
      existsb (same_name_or_schema name label key) (Neo4j.indexes g)
      || existsb (same_name_or_schema name label key) (Neo4j.constraints g)
  | Query _ _ => false
  end.

Lemma same_name_or_schema_refl name label key :
  same_name_or_schema name label key
    {| rule_name := name; rule_label := label; rule_prop := key |} = true.
Proof. unfold same_name_or_schema; simpl. now rewrite String.eqb_refl. Qed.

Lemma settled_unchanged s g : settled s g = true -> fst (query s g) = g.
Proof.
  destruct s as [body ret|name x label key|name x label key]; simpl;
    [discriminate| |].
  - destruct (existsb _ (Neo4j.constraints g)); [reflexivity|].
    destruct (existsb _ (Neo4j.indexes g)); [reflexivity|].
    destruct (duplicated label key (nodes g)); [reflexivity|discriminate].
  - destruct (existsb _ (Neo4j.indexes g)); [reflexivity|].
    destruct (existsb _ (Neo4j.constraints g)); [reflexivity|discriminate].
Qed.

(** A schema command only appends rules. *)
Lemma schema_command_grows s g :
  is_schema_command s = true ->
  nodes (fst (query s g)) = nodes g
  /\ relationships (fst (query s g)) = relationships g
  /\ (exists cs, Neo4j.constraints (fst (query s g)) = Neo4j.constraints g ++ cs)
  /\ (exists ix, Neo4j.indexes (fst (query s g)) = Neo4j.indexes g ++ ix).
Proof.
  destruct s as [body ret|name x label key|name x label key]; simpl;
    [discriminate| |]; intros _.
  - destruct (existsb _ (Neo4j.constraints g));
      [|destruct (existsb _ (Neo4j.indexes g));
        [|destruct (duplicated label key (nodes g))]];
      simpl; repeat split; try (exists []; now rewrite app_nil_r);
      eexists; reflexivity.
  - destruct (existsb _ (Neo4j.indexes g));
      [|destruct (existsb _ (Neo4j.constraints g))];
      simpl; repeat split; try (exists []; now rewrite app_nil_r);
      eexists; reflexivity.
Qed.

Lemma settled_after s g :
  is_schema_command s = true -> settled s (fst (query s g)) = true.
Proof.
  destruct s as [body ret|name x label key|name x label key]; simpl;
    [discriminate| |]; intros _.
  - destruct (existsb _ (Neo4j.constraints g)) eqn:E1; simpl; [now rewrite E1|].
    destruct (existsb _ (Neo4j.indexes g)) eqn:E2; simpl;
      [now rewrite E2, orb_true_r|].
    destruct (duplicated label key (nodes g)) eqn:E3; simpl;
      [now rewrite E3, orb_true_r|].
    rewrite existsb_app. cbn [existsb].
    rewrite (same_name_or_schema_refl name label key).
    now rewrite ?orb_true_r.
  - destruct (existsb _ (Neo4j.indexes g)) eqn:E1; simpl; [now rewrite E1|].
    destruct (existsb _ (Neo4j.constraints g)) eqn:E2; simpl;
      [now rewrite E2, orb_true_r|].
    rewrite existsb_app. cbn [existsb].
    rewrite (same_name_or_schema_refl name label key).
    now rewrite ?orb_true_r.
Qed.

Lemma settled_stays s s' g :
  is_schema_command s' = true ->
  settled s g = true -> settled s (fst (query s' g)) = true.
Proof.
  intros Hs' Hs.
  destruct (schema_command_grows s' g Hs') as (Hn & _ & [cs Hc] & [ix Hi]).
  destruct s as [body ret|name x label key|name x label key]; simpl in *;
    [discriminate| |]; rewrite ?Hn, Hc, Hi, !existsb_app.
  - repeat (apply orb_prop in Hs as [Hs|Hs]); rewrite Hs;
      now rewrite ?orb_true_r.
  - repeat (apply orb_prop in Hs as [Hs|Hs]); rewrite Hs;
      now rewrite ?orb_true_r.
Qed.

(** The graph a statement loop leaves on the store. *)
Lemma each_in_try_graph ok ko (statements : list Statement) :
  forall g log,
    fst (Builder.each_in_try query ok ko statements g log)
    = fold_left (fun g s => fst (query s g)) statements g.
Proof.
  induction statements as [|s rest IH]; intros g log; simpl; [reflexivity|].
  destruct (query s g) as [g1 [rows|e]]; apply IH.
Qed.

Definition run_all (statements : list Statement) (g : Graph) : Graph :=
  fold_left (fun g s => fst (query s g)) statements g.

Lemma run_all_settled_stay (later : list Statement) :
  forallb is_schema_command later = true ->
  forall s g, settled s g = true -> settled s (run_all later g) = true.
Proof.
  induction later as [|s' rest IH]; intros Hall s g Hs; simpl; [exact Hs|].
  simpl in Hall. apply andb_prop in Hall as [H1 H2].
  apply IH; [exact H2|]. now apply settled_stays.
Qed.

Lemma run_all_settles (statements : list Statement) :
  forallb is_schema_command statements = true ->
  forall g s, In s statements -> settled s (run_all statements g) = true.
Proof.
  induction statements as [|s' rest IH]; intros Hall g s Hin; [destruct Hin|].
  simpl in Hall. apply andb_prop in Hall as [H1 H2]. simpl.
  destruct Hin as [->|Hin].
  - apply run_all_settled_stay; [exact H2|]. now apply settled_after.
  - now apply IH.
Qed.

Lemma run_all_unchanged (statements : list Statement) :
  forall g, (forall s, In s statements -> settled s g = true) ->
            run_all statements g = g.
Proof.
  induction statements as [|s rest IH]; intros g H; simpl; [reflexivity|].
  rewrite (settled_unchanged s g (H s (or_introl eq_refl))).
  apply IH. intros s' Hs'. apply H. now right.
Qed.

Lemma create_constraints_and_indexes_graph g log :
  fst (Builder.create_constraints_and_indexes query g log)
  = run_all (Builder.constraints ++ Builder.indexes) g.
Proof.
  unfold Builder.create_constraints_and_indexes, run_all.
  match goal with
  | |- context [Builder.each_in_try query ?ok ?ko Builder.constraints g log] =>
      pose proof (each_in_try_graph ok ko Builder.constraints g log) as H;
      destruct (Builder.each_in_try query ok ko Builder.constraints g log)
        as [g1 log1]
  end.
  simpl in H. subst g1. rewrite each_in_try_graph, fold_left_app. reflexivity.
Qed.

End SchemaFacts.

(** C5. The schema setup issues its five constraint statements and its three
    index statements, each in a [try] of its own: whatever the connection
    answers to a statement (a result or an exception), the eight statements
    are all sent, in order.  Each is a create-if-absent command, and on the
    graph store a second run leaves the graph, and so its constraints and
    indexes, exactly as the first run left them. *)
Theorem create_constraints_and_indexes_idempotent :
  (forall (W : Type) (graph_query : Statement -> Call W Rows)
          (w : W) (issued : list Statement) (log : Log),
      snd (fst (Builder.create_constraints_and_indexes (traced graph_query)
                  (w, issued) log))
      = issued ++ Builder.constraints ++ Builder.indexes)
  /\ forallb is_schema_command (Builder.constraints ++ Builder.indexes) = true
  /\ (forall (g : Graph) (log log' : Log),
         let g1 := fst (Builder.create_constraints_and_indexes query g log) in
         fst (Builder.create_constraints_and_indexes query g1 log') = g1
         /\ Neo4j.constraints
              (fst (Builder.create_constraints_and_indexes query g1 log'))
            = Neo4j.constraints g1
         /\ Neo4j.indexes
              (fst (Builder.create_constraints_and_indexes query g1 log'))
            = Neo4j.indexes g1).
Proof.
  split; [|split].
  - intros W graph_query w issued log.
    unfold Builder.create_constraints_and_indexes.
    match goal with
    | |- context [Builder.each_in_try _ ?ok ?ko Builder.constraints ?st log] =>
        pose proof (each_in_try_trace graph_query ok ko Builder.constraints
                      w issued log) as H;
        destruct (Builder.each_in_try (traced graph_query) ok ko
                    Builder.constraints st log) as [[w1 issued1] log1]
    end.
    simpl in H. subst issued1.
    rewrite each_in_try_trace. now rewrite <- app_assoc.
  - reflexivity.
  - intros g log log' g1.
    assert (E : fst (Builder.create_constraints_and_indexes query g1 log') = g1).
    { subst g1. rewrite !create_constraints_and_indexes_graph.
      apply run_all_unchanged. intros s Hs.
      now apply run_all_settles. }
    now rewrite E.
Qed.

(** ** Reading statements leave the graph alone *)

Section ReadOnly.

Lemma exec_row_reads c row g :
  reads c = true -> exists t, exec_row c row g = Return (g, t).
Proof.
  destruct c as [p|r|r|p|p|a t b]; simpl; try discriminate; intros _.
  - eexists; reflexivity.
  - eexists; reflexivity.
  - destruct (relationships g); eexists; reflexivity.
Qed.

Lemma exec_clause_reads c t g :
  reads c = true -> exists t', exec_clause c t g = Return (g, t').
Proof.
  intros Hc. induction t as [|row rest [t' IH]]; simpl.
  - eexists; reflexivity.
  - destruct (exec_row_reads c row g Hc) as [t1 ->]. simpl.
    rewrite IH. simpl. eexists; reflexivity.
Qed.

Lemma exec_body_reads body :
  forallb reads body = true ->
  forall t g, exists t', exec_body body t g = Return (g, t').
Proof.
  induction body as [|c rest IH]; simpl; intros Hall t g.
  - eexists; reflexivity.
  - apply andb_prop in Hall as [Hc Hrest].
    destruct (exec_clause_reads c t g Hc) as [t1 ->]. simpl.
    now apply IH.
Qed.

(** A statement made of reading clauses returns its rows and the graph it
    was given. *)
Lemma query_read_only s g :
  read_only s = true -> exists rows, query s g = (g, Return rows).
Proof.
  destruct s as [body ret|name x label key|name x label key]; simpl;
    try discriminate.
  intros Hall. destruct (exec_body_reads body Hall [[]] g) as [t ->].
  eexists; reflexivity.
Qed.

(** The rows of a grouped count have the two columns the dict comprehension
    reads. *)
Lemma comprehension_group_count key k v c g t :
  forall d, exists d',
    Dict.comprehension k c
      (project (Some (RETURN_GROUP_COUNT key k v c)) g t) d = Return d'.
Proof.
  unfold project.
  induction (order_by_count_desc (group_count key v g t)) as [|kc rest IH];
    intros d; simpl.
  - eexists; reflexivity.
  - rewrite String.eqb_refl. simpl.
    destruct (String.eqb c k); simpl; rewrite ?String.eqb_refl; simpl;
      apply IH.
Qed.

Lemma query_group_count body key k v c g :
  forallb reads body = true ->
  exists rows,
    query (Query body (Some (RETURN_GROUP_COUNT key k v c))) g
    = (g, Return rows)
    /\ forall d, exists d', Dict.comprehension k c rows d = Return d'.
Proof.
  intros Hall. simpl. destruct (exec_body_reads body Hall [[]] g) as [t ->].
  eexists; split; [reflexivity|]. apply comprehension_group_count.
Qed.

Lemma query_counts body n a r b g :
  forallb reads body = true ->
  exists row,
    query (Query body (Some (RETURN_COUNTS n a r b))) g = (g, Return [row]).
Proof.
  intros Hall. simpl. destruct (exec_body_reads body Hall [[]] g) as [t ->].
  eexists; reflexivity.
Qed.

Lemma validate_graph_returns g :
  exists stats, Builder.validate_graph query g = (g, Return stats).
Proof.
  unfold Builder.validate_graph, and_then, lift, ret.
  destruct (query_group_count [MATCH (Builder.any_node "n")]
              (FirstLabel "n") "label" "n" "count" g eq_refl)
    as (rows1 & E1 & C1).
  unfold Builder.node_counts_query. rewrite E1.
  destruct (C1 []) as [d1 ->].
  destruct (query_group_count [MATCH_REL "r"]
              (TypeOf "r") "relationship" "r" "count" g eq_refl)
    as (rows2 & E2 & C2).
  unfold Builder.rel_counts_query. rewrite E2.
  destruct (C2 []) as [d2 ->].
  destruct (query_counts [MATCH (Builder.any_node "n"); OPTIONAL_MATCH_REL "r"]
              "n" "total_nodes" "r" "total_relationships" g eq_refl)
    as (row & E3).
  unfold Builder.totals_query. rewrite E3. simpl.
  eexists; reflexivity.
Qed.

Lemma get_graph_stats_returns g :
  exists stats, QA.get_graph_stats query g = (g, Return stats).
Proof.
  unfold QA.get_graph_stats, and_then, lift, ret.
  destruct (query_group_count [MATCH (Builder.any_node "n")]
              (FirstLabel "n") "label" "n" "count" g eq_refl)
    as (rows1 & E1 & C1).
  unfold Builder.node_counts_query. rewrite E1.
  destruct (C1 []) as [d1 ->].
  destruct (query_group_count [MATCH_REL "r"]
              (TypeOf "r") "relationship" "r" "count" g eq_refl)
    as (rows2 & E2 & C2).
  unfold Builder.rel_counts_query. rewrite E2.
  destruct (C2 []) as [d2 ->].
  eexists; reflexivity.
Qed.

End ReadOnly.

(** C9. The statistics of [validate_graph] (main.py) and of
    [get_graph_stats] (qa.py) are read-only: on every graph, the empty one
    included, each returns its statistics and leaves the graph (nodes,
    relationships, constraints and indexes) as it was; the statements they
    send are the two grouped counts and, for [validate_graph], the totals,
    all made of reading clauses only. *)
Theorem statistics_are_read_only (g : Graph) :
  (exists stats, Builder.validate_graph query g = (g, Return stats))
  /\ (exists stats, QA.get_graph_stats query g = (g, Return stats))
  /\ snd (fst (Builder.validate_graph (traced query) (g, [])))
     = [Builder.node_counts_query; Builder.rel_counts_query;
        Builder.totals_query]
  /\ snd (fst (QA.get_graph_stats (traced query) (g, [])))
     = [Builder.node_counts_query; Builder.rel_counts_query]
  /\ forallb read_only
       [Builder.node_counts_query; Builder.rel_counts_query;
        Builder.totals_query] = true.
Proof.
  split; [apply validate_graph_returns|].
  split; [apply get_graph_stats_returns|].
  destruct (query_group_count [MATCH (Builder.any_node "n")]
              (FirstLabel "n") "label" "n" "count" g eq_refl)
    as (rows1 & E1 & C1).
  destruct (query_group_count [MATCH_REL "r"]
              (TypeOf "r") "relationship" "r" "count" g eq_refl)
    as (rows2 & E2 & C2).
  destruct (query_counts [MATCH (Builder.any_node "n"); OPTIONAL_MATCH_REL "r"]
              "n" "total_nodes" "r" "total_relationships" g eq_refl)
    as (row & E3).
  destruct (C1 []) as [d1 D1]. destruct (C2 []) as [d2 D2].
  split; [|split; [|reflexivity]].
  - unfold Builder.validate_graph, and_then, lift, ret, traced.
    unfold Builder.node_counts_query at 1. cbn [fst snd]. rewrite E1, D1.
    unfold Builder.rel_counts_query at 1. cbn [fst snd]. rewrite E2, D2.
    unfold Builder.totals_query at 1. cbn [fst snd]. rewrite E3.
    reflexivity.
  - unfold QA.get_graph_stats, and_then, lift, ret, traced.
    unfold Builder.node_counts_query at 1. cbn [fst snd]. rewrite E1, D1.
    unfold Builder.rel_counts_query at 1. cbn [fst snd]. rewrite E2, D2.
    reflexivity.
Qed.

(** C4. On a graph without nodes and without relationships [validate_graph]
    returns empty label and relationship-type mappings and a totals row in
    which [total_nodes] and [total_relationships] are both the number 0. *)
Theorem validate_graph_on_empty_graph (g : Graph) :
  nodes g = [] -> relationships g = [] ->
  Builder.validate_graph query g
  = (g, Return {| Builder.node_counts := [];
                  Builder.relationship_counts := [];
                  Builder.totals := [("total_nodes", CInt 0);
                                     ("total_relationships", CInt 0)] |}).
Proof.
  destruct g as [ns rs cs ix]; simpl; intros -> ->. reflexivity.
Qed.

Lemma validate_graph_on_empty_graph_witness :
  Builder.validate_graph query empty_graph
  = (empty_graph,
     Return {| Builder.node_counts := [];
               Builder.relationship_counts := [];
               Builder.totals := [("total_nodes", CInt 0);
                                  ("total_relationships", CInt 0)] |}).
Proof.
  apply (validate_graph_on_empty_graph empty_graph); reflexivity.
Defined.

(** ** Manual facts applied twice *)

Section ManualFacts.

(** The graph after the manual facts were applied once, and twice, to the
    empty graph. *)
Definition manual_once : Graph :=
  fst (Builder.add_manual_knowledge query empty_graph []).

Definition manual_twice : Graph :=
  fst (Builder.add_manual_knowledge query manual_once []).

(** The same after the schema setup, as [run_pipeline] orders the steps. *)
Definition schema_then_manual_once : Graph :=
  fst (Builder.add_manual_knowledge query
         (fst (Builder.create_constraints_and_indexes query empty_graph []))
         []).

Definition schema_then_manual_twice : Graph :=
  fst (Builder.add_manual_knowledge query schema_then_manual_once []).

Definition sizes (g : Graph) : nat * nat :=
  (length (nodes g), length (relationships g)).

(** C3. Applied to the empty graph the manual facts give 10 nodes and 3
    relationships; applied again they give 13 nodes and 6 relationships: the
    three films are created with [CREATE] and the three family relationships
    with [MATCH ... CREATE], not merged.  With the uniqueness constraints in
    place the film statement of the second run fails, and the relationships
    are still doubled. *)
Theorem add_manual_knowledge_twice_grows :
  sizes manual_once = (10, 3)
  /\ sizes manual_twice = (13, 6)
  /\ sizes schema_then_manual_once = (10, 3)
  /\ sizes schema_then_manual_twice = (10, 6).
Proof. repeat split; vm_compute; reflexivity. Qed.

End ManualFacts.

(** ** The per-chunk loop *)

Section Chunks.

Import Builder.

Context {W : Type}.
Variable convert_to_graph_documents : list Document -> Call W (list GraphDocument).
Variable add_graph_documents : list GraphDocument -> Call W unit.

(** What the loop asks of its collaborators, and what they answer. *)
Inductive Event : Type :=
| Extracted (docs : list Document) (r : result (list GraphDocument))
| Loaded (graph_docs : list GraphDocument) (r : result unit).

Definition observed_convert (docs : list Document)
  : Call (W * list Event) (list GraphDocument) :=
  fun wt =>
    match convert_to_graph_documents docs (fst wt) with
    | (w1, r) => ((w1, snd wt ++ [Extracted docs r]), r)
    end.

Definition observed_add (graph_docs : list GraphDocument)
  : Call (W * list Event) unit :=
  fun wt =>
    match add_graph_documents graph_docs (fst wt) with
    | (w1, r) => ((w1, snd wt ++ [Loaded graph_docs r]), r)
    end.

(** The inputs of the extraction calls, in order. *)
Definition extraction_calls (events : list Event) : list (list Document) :=
  flat_map (fun ev => match ev with
                      | Extracted docs _ => [docs]
                      | Loaded _ _ => []
                      end) events.

(** The graph documents of the extraction calls that returned. *)
Definition extracted (events : list Event) : list GraphDocument :=
  flat_map (fun ev => match ev with
                      | Extracted _ (Return graph_docs) => graph_docs
                      | _ => []
                      end) events.

(** The graph documents of the graph writes that returned. *)
Definition loaded (events : list Event) : list GraphDocument :=
  flat_map (fun ev => match ev with
                      | Loaded graph_docs (Return _) => graph_docs
                      | _ => []
                      end) events.

Definition entities (graph_docs : list GraphDocument) : nat :=
  list_sum (map (fun d => length (gd_nodes d)) graph_docs).

Definition relations (graph_docs : list GraphDocument) : nat :=
  list_sum (map (fun d => length (gd_relationships d)) graph_docs).

Lemma count_documents_totals graph_docs :
  forall t,
    total_entities (count_documents graph_docs t)
    = total_entities t + entities graph_docs
    /\ total_relationships (count_documents graph_docs t)
       = total_relationships t + relations graph_docs.
Proof.
  unfold count_documents, entities, relations.
  induction graph_docs as [|d rest IH]; intros t; simpl; [lia|].
  destruct (IH {| total_entities := total_entities t + length (gd_nodes d);
                  total_relationships :=
                    total_relationships t + length (gd_relationships d) |})
    as [-> ->]. simpl. lia.
Qed.

Lemma entities_app a b : entities (a ++ b) = entities a + entities b.
Proof. unfold entities. now rewrite map_app, list_sum_app. Qed.

Lemma relations_app a b : relations (a ++ b) = relations a + relations b.
Proof. unfold relations. now rewrite map_app, list_sum_app. Qed.

Lemma extracted_app a b : extracted (a ++ b) = extracted a ++ extracted b.
Proof. apply flat_map_app. Qed.

Lemma extraction_calls_app a b :
  extraction_calls (a ++ b) = extraction_calls a ++ extraction_calls b.
Proof. apply flat_map_app. Qed.

Lemma extracted_one docs (r : result (list GraphDocument)) :
  extracted [Extracted docs r]
  = match r with Return graph_docs => graph_docs | Raise _ => [] end.
Proof. destruct r; simpl; now rewrite ?app_nil_r. Qed.

Lemma extracted_loaded graph_docs (r : result unit) :
  extracted [Loaded graph_docs r] = [].
Proof. reflexivity. Qed.

Lemma extraction_calls_one docs (r : result (list GraphDocument)) :
  extraction_calls [Extracted docs r] = [docs].
Proof. reflexivity. Qed.

Lemma extraction_calls_loaded graph_docs (r : result unit) :
  extraction_calls [Loaded graph_docs r] = [].
Proof. reflexivity. Qed.

Lemma entities_nil : entities [] = 0.
Proof. reflexivity. Qed.

Lemma relations_nil : relations [] = 0.
Proof. reflexivity. Qed.

(** What the loop has to ask for [chunks]: for each chunk, in order, the
    extraction of that chunk alone and, when the extraction returned, the
    graph write of exactly what it returned; whatever the two answer, the
    next chunk follows. *)
Fixpoint attempts (chunks : list Document) (events : list Event) : Prop :=
  match chunks, events with
  | [], [] => True
  | chunk :: rest, Extracted docs (Raise _) :: events' =>
      docs = [chunk] /\ attempts rest events'
  | chunk :: rest,
    Extracted docs (Return graph_docs) :: Loaded written _ :: events' =>
      docs = [chunk] /\ written = graph_docs /\ attempts rest events'
  | _, _ => False
  end.

(** The error records of the chunks that failed, the first chunk of the
    events being chunk [i]. *)
Fixpoint failures (i : nat) (events : list Event) : list LogRecord :=
  match events with
  | Extracted _ (Raise e) :: rest => chunk_error i e :: failures (S i) rest
  | Extracted _ (Return _) :: Loaded _ (Raise e) :: rest =>
      chunk_error i e :: failures (S i) rest
  | Extracted _ (Return _) :: Loaded _ (Return _) :: rest =>
      failures (S i) rest
  | _ => []
  end.

Lemma attempts_calls (chunks : list Document) :
  forall events,
    attempts chunks events ->
    extraction_calls events = map (fun c => [c]) chunks.
Proof.
  induction chunks as [|chunk rest IH]; intros events H.
  - destruct events; [reflexivity | destruct H].
  - destruct events as [|[docs [graph_docs|e]|] events']; cbn [attempts] in H;
      try contradiction.
    + destruct events' as [|[|written r] events'']; try contradiction.
      destruct H as (-> & _ & H). cbn [map]. rewrite <- (IH _ H). reflexivity.
    + destruct H as (-> & H). cbn [map]. rewrite <- (IH _ H). reflexivity.
Qed.

Lemma process_loop_observed (chunks : list Document) :
  forall n i (w : W) (events : list Event) t log,
    match process_loop observed_convert observed_add n i chunks
            (w, events) t log with
    | ((w', events'), t', log') =>
        exists new,
          events' = events ++ new
          /\ attempts chunks new
          /\ total_entities t' = total_entities t + entities (extracted new)
          /\ total_relationships t'
             = total_relationships t + relations (extracted new)
          /\ (forall r, In r log -> In r log')
          /\ (forall j, j < length chunks -> In (processing (i + j) n) log')
          /\ (forall r, In r (failures i new) -> In r log')
    end.
Proof.
  induction chunks as [|chunk rest IH]; intros n i w events t log.
  - simpl. exists []. rewrite app_nil_r.
    repeat split; try lia; auto. intros r [].
  - cbn [process_loop]. unfold observed_convert at 1. cbn [fst snd].
    destruct (convert_to_graph_documents [chunk] w) as [w1 [graph_docs|e]].
    + unfold observed_add at 1. cbn [fst snd].
      destruct (count_documents_totals graph_docs t) as [Te Tr].
      destruct (add_graph_documents graph_docs w1) as [w2 [u|e]].
      * match goal with
        | |- context [process_loop _ _ n (S i) rest ?st ?t1 ?l1] =>
            specialize (IH n (S i) (fst st) (snd st) t1 l1); cbn [fst snd] in IH;
            destruct (process_loop observed_convert observed_add n (S i) rest
                        st t1 l1) as [[[w' events'] t'] log']
        end.
        destruct IH as (new & I0 & I1 & I2 & I3 & I4 & I5 & I6).
        exists (Extracted [chunk] (Return graph_docs)
                :: Loaded graph_docs (Return u) :: new).
        split; [now rewrite I0, <- !app_assoc|].
        split; [cbn [attempts]; auto|].
        change (extracted (Extracted [chunk] (Return graph_docs)
                           :: Loaded graph_docs (Return u) :: new))
          with (graph_docs ++ [] ++ extracted new).
        cbn [app]. rewrite entities_app, relations_app.
        repeat split; [lia | lia | | |].
        -- intros r Hr. apply I4.
           destruct (Nat.eqb ((i + 1) mod 10) 0); rewrite ?in_app_iff; auto.
        -- intros [|j] Hj.
           ++ rewrite Nat.add_0_r. apply I4.
              destruct (Nat.eqb ((i + 1) mod 10) 0); rewrite ?in_app_iff;
                simpl; auto.
           ++ replace (i + S j) with (S i + j) by lia. apply I5.
              simpl in Hj. lia.
        -- cbn [failures]. exact I6.
      * match goal with
        | |- context [process_loop _ _ n (S i) rest ?st ?t1 ?l1] =>
            specialize (IH n (S i) (fst st) (snd st) t1 l1); cbn [fst snd] in IH;
            destruct (process_loop observed_convert observed_add n (S i) rest
                        st t1 l1) as [[[w' events'] t'] log']
        end.
        destruct IH as (new & I0 & I1 & I2 & I3 & I4 & I5 & I6).
        exists (Extracted [chunk] (Return graph_docs)
                :: Loaded graph_docs (Raise e) :: new).
        split; [now rewrite I0, <- !app_assoc|].
        split; [cbn [attempts]; auto|].
        change (extracted (Extracted [chunk] (Return graph_docs)
                           :: Loaded graph_docs (Raise e) :: new))
          with (graph_docs ++ [] ++ extracted new).
        cbn [app]. rewrite entities_app, relations_app.
        repeat split; [lia | lia | | |].
        -- intros r Hr. apply I4. rewrite !in_app_iff; auto.
        -- intros [|j] Hj.
           ++ rewrite Nat.add_0_r. apply I4. rewrite !in_app_iff; simpl; auto.
           ++ replace (i + S j) with (S i + j) by lia. apply I5.
              simpl in Hj. lia.
        -- cbn [failures]. intros r [<-|Hr]; [|now apply I6].
           apply I4. rewrite !in_app_iff; simpl; auto.
    + match goal with
      | |- context [process_loop _ _ n (S i) rest ?st ?t1 ?l1] =>
          specialize (IH n (S i) (fst st) (snd st) t1 l1); cbn [fst snd] in IH;
          destruct (process_loop observed_convert observed_add n (S i) rest
                      st t1 l1) as [[[w' events'] t'] log']
      end.
      destruct IH as (new & I0 & I1 & I2 & I3 & I4 & I5 & I6).
      exists (Extracted [chunk] (Raise e) :: new).
      split; [now rewrite I0, <- !app_assoc|].
      split; [cbn [attempts]; auto|].
      change (extracted (Extracted [chunk] (Raise e) :: new))
        with ([] ++ extracted new).
      cbn [app].
      repeat split; [lia | lia | | |].
      * intros r Hr. apply I4. rewrite !in_app_iff; auto.
      * intros [|j] Hj.
        -- rewrite Nat.add_0_r. apply I4. rewrite !in_app_iff; simpl; auto.
        -- replace (i + S j) with (S i + j) by lia. apply I5.
           simpl in Hj. lia.
      * cbn [failures]. intros r [<-|Hr]; [|now apply I6].
        apply I4. rewrite !in_app_iff; simpl; auto.
Qed.

End Chunks.

(** C1, as the code has it.  Whatever the extraction and the graph write
    answer for each chunk, the loop goes through every chunk, in order: it
    calls the extraction for the chunk alone and, when the extraction
    returned, attempts the graph write of exactly what was extracted; a
    failure of either is logged with the number of the chunk and the next
    chunk follows.  The totals are those of the graph documents of the
    extractions that returned, whether or not the graph write that followed
    succeeded; a chunk whose extraction raised adds nothing.  The function
    returns the sum of the two totals. *)
Theorem process_chunks_to_graph_counts_extracted :
  forall (W : Type)
         (convert_to_graph_documents : list Document -> Call W (list Builder.GraphDocument))
         (add_graph_documents : list Builder.GraphDocument -> Call W unit)
         (chunks : list Document) (w : W) (log : Log),
    match Builder.process_chunks_to_graph
            (observed_convert convert_to_graph_documents)
            (observed_add add_graph_documents) chunks (w, []) log with
    | ((w', events), total, log') =>
        attempts chunks events
        /\ extraction_calls events = map (fun c => [c]) chunks
        /\ total = entities (extracted events) + relations (extracted events)
        /\ (forall j, j < length chunks ->
                      In (Builder.processing j (length chunks)) log')
        /\ (forall r, In r (failures 0 events) -> In r log')
        /\ In (Builder.total_extracted
                 {| Builder.total_entities := entities (extracted events);
                    Builder.total_relationships := relations (extracted events) |})
              log'
    end.
Proof.
  intros W convert add chunks w log. unfold Builder.process_chunks_to_graph.
  pose proof (process_loop_observed convert add chunks (length chunks) 0 w []
                Builder.no_totals log) as H.
  destruct (Builder.process_loop _ _ (length chunks) 0 chunks (w, [])
              Builder.no_totals log) as [[[w' events] t] log'].
  destruct H as (new & H0 & H1 & H2 & H3 & H4 & H5 & H6).
  cbn [app] in H0. subst new. cbn in H2, H3.
  repeat split.
  - exact H1.
  - now apply attempts_calls.
  - lia.
  - intros j Hj. apply in_or_app. left. exact (H5 j Hj).
  - intros r Hr. apply in_or_app. left. exact (H6 r Hr).
  - apply in_or_app. right. left.
    destruct t as [te tr]. cbn in H2, H3. now subst.
Qed.

(** One chunk, an extraction that finds two nodes and one relationship, and
    a graph store that refuses every write. *)
Definition one_chunk : list Document :=
  [{| page_content := text "Luke Skywalker pilota uma X-Wing."; page := 0 |}].

Definition convert_ok (docs : list Document)
  : Call unit (list Builder.GraphDocument) :=
  fun w =>
    (w, Return (map (fun d =>
                       {| Builder.gd_nodes :=
                            [{| Builder.gn_id := "Luke Skywalker";
                                Builder.gn_type := "Personagem" |};
                             {| Builder.gn_id := "X-Wing";
                                Builder.gn_type := "Nave" |}];
                          Builder.gd_relationships :=
                            [{| Builder.gr_source := "Luke Skywalker";
                                Builder.gr_target := "X-Wing";
                                Builder.gr_type := "PILOTA" |}];
                          Builder.gd_source := d |}) docs)).

Definition add_refused (graph_docs : list Builder.GraphDocument)
  : Call unit unit :=
  fun w => (w, Raise (ExternalError "ServiceUnavailable")).

Definition add_ok (graph_docs : list Builder.GraphDocument) : Call unit unit :=
  fun w => (w, Return tt).

(** Three chunks: the extraction fails on the first, the graph write fails
    on the second, the third goes through. *)
Definition three_chunks : list Document :=
  [{| page_content := text "Luke Skywalker pilota uma X-Wing."; page := 0 |};
   {| page_content := text "Han Solo pilota a Millennium Falcon."; page := 1 |};
   {| page_content := text "Leia Organa lidera a Aliança Rebelde."; page := 2 |}].

Definition convert_flaky (docs : list Document)
  : Call unit (list Builder.GraphDocument) :=
  fun w =>
    if existsb (fun d => Nat.eqb (page d) 0) docs
    then (w, Raise (ExternalError "RateLimitError"))
    else convert_ok docs w.

Definition add_flaky (graph_docs : list Builder.GraphDocument)
  : Call unit unit :=
  fun w =>
    if existsb (fun d => Nat.eqb (page (Builder.gd_source d)) 1) graph_docs
    then (w, Raise (ExternalError "ServiceUnavailable"))
    else (w, Return tt).

Lemma process_chunks_to_graph_counts_extracted_witness :
  match Builder.process_chunks_to_graph (observed_convert convert_flaky)
          (observed_add add_flaky) three_chunks (tt, []) [] with
  | ((w', events), total, log') =>
      attempts three_chunks events
      /\ extraction_calls events = map (fun c => [c]) three_chunks
      /\ total = entities (extracted events) + relations (extracted events)
      /\ (forall j, j < length three_chunks ->
                    In (Builder.processing j (length three_chunks)) log')
      /\ (forall r, In r (failures 0 events) -> In r log')
      /\ In (Builder.total_extracted
               {| Builder.total_entities := entities (extracted events);
                  Builder.total_relationships := relations (extracted events) |})
            log'
  end.
Proof.
  exact (process_chunks_to_graph_counts_extracted unit convert_flaky add_flaky
           three_chunks tt []).
Defined.

(** On the three chunks: the first fails in the extraction and the second in
    the graph write, both are logged, the third is still processed; the
    second and the third are counted, and only the third was loaded. *)
Example process_chunks_to_graph_three_chunks :
  match Builder.process_chunks_to_graph (observed_convert convert_flaky)
          (observed_add add_flaky) three_chunks (tt, []) [] with
  | ((w', events), total, log') =>
      map (fun ev => match ev with
                     | Extracted docs (Return _) => (map page docs, true)
                     | Extracted docs (Raise _) => (map page docs, false)
                     | Loaded graph_docs (Return _) =>
                         (map (fun d => page (Builder.gd_source d)) graph_docs,
                          true)
                     | Loaded graph_docs (Raise _) =>
                         (map (fun d => page (Builder.gd_source d)) graph_docs,
                          false)
                     end) events
      = [([0], false); ([1], true); ([1], false); ([2], true); ([2], true)]
      /\ failures 0 events
         = [Builder.chunk_error 0 (ExternalError "RateLimitError");
            Builder.chunk_error 1 (ExternalError "ServiceUnavailable")]
      /\ total = 6
      /\ entities (loaded events) + relations (loaded events) = 3
  end.
Proof. vm_compute. repeat split. Qed.

(** The chunk whose graph write failed is counted all the same: nothing was
    loaded, and the function returns 3. *)
Lemma process_chunks_to_graph_counts_unloaded_chunk :
  match Builder.process_chunks_to_graph (observed_convert convert_ok)
          (observed_add add_refused) one_chunk (tt, []) [] with
  | ((w', events), total, log') =>
      loaded events = []
      /\ events = [Extracted one_chunk (snd (convert_ok one_chunk tt));
                   Loaded (extracted events)
                     (Raise (ExternalError "ServiceUnavailable"))]
      /\ total = 3
      /\ total <> entities (loaded events) + relations (loaded events)
  end.
Proof. vm_compute. repeat split; discriminate. Qed.

(** ** Question answering *)

Section Asking.

Import QA.

Context {W : Type}.
Variable qa_chain_invoke : string -> Call W Response.
Variable callback : W -> W -> Callback.

Lemma ask_with_context_raise q w w1 e :
  qa_chain_invoke q w = (w1, Raise e) ->
  ask_with_context qa_chain_invoke callback q w = (w1, Return (degraded q e)).
Proof.
  intros H. unfold ask_with_context, try_call, answer_question, and_then.
  rewrite H. reflexivity.
Qed.

(** What [ask_with_context] returns, by the outcome of the chain. *)
Lemma ask_with_context_cases q w :
  match qa_chain_invoke q w with
  | (w1, Raise e) =>
      ask_with_context qa_chain_invoke callback q w
      = (w1, Return (degraded q e))
  | (w1, Return response) =>
      match resp_result response with
      | None =>
          ask_with_context qa_chain_invoke callback q w
          = (w1, Return (degraded q (KeyError "result")))
      | Some a =>
          let steps := match resp_intermediate_steps response with
                       | Some steps => steps
                       | None => []
                       end in
          ask_with_context qa_chain_invoke callback q w
          = (w1, Return {| question := q; answer := a;
                           cypher_query := fst (scan_steps steps);
                           raw_results := snd (scan_steps steps);
                           tokens_used := total_tokens (callback w w1);
                           cost := total_cost (callback w w1) |})
      end
  end.
Proof.
  unfold ask_with_context, try_call, answer_question, and_then, lift, ret,
    result_of.
  destruct (qa_chain_invoke q w) as [w1 [response|e]]; [|reflexivity].
  destruct (scan_steps _) as [cypher rows] eqn:E.
  destruct (resp_result response) as [a|]; simpl; reflexivity.
Qed.

Lemma ask_with_context_returns q w :
  exists a w', ask_with_context qa_chain_invoke callback q w = (w', Return a).
Proof.
  pose proof (ask_with_context_cases q w) as H.
  destruct (qa_chain_invoke q w) as [w1 [response|e]].
  - destruct (resp_result response); eauto.
  - eauto.
Qed.

End Asking.

(** C2. [ask_with_context] never raises: for every question and every state
    of the world it returns a result.  When the chain raises, whichever of
    its steps failed, the result is the degraded one: the answer is the
    error text, the query is empty, there are no rows, and tokens and cost
    are zero. *)
Theorem ask_with_context_degrades_on_failure :
  forall (W : Type) (qa_chain_invoke : string -> Call W QA.Response)
         (callback : W -> W -> QA.Callback) (q : string) (w : W),
    (exists a w',
        QA.ask_with_context qa_chain_invoke callback q w = (w', Return a))
    /\ (forall e w1,
           qa_chain_invoke q w = (w1, Raise e) ->
           exists a,
             QA.ask_with_context qa_chain_invoke callback q w = (w1, Return a)
             /\ QA.question a = q
             /\ QA.answer a = "Erro ao processar pergunta: " +:+ str e
             /\ QA.cypher_query a = ""
             /\ QA.raw_results a = []
             /\ QA.tokens_used a = 0
             /\ QA.cost a = 0%float).
Proof.
  intros W invoke callback q w. split.
  - apply ask_with_context_returns.
  - intros e w1 H. exists (QA.degraded q e).
    rewrite (ask_with_context_raise invoke callback q w w1 e H).
    repeat split.
Qed.

(** A chain whose LLM call is refused. *)
Definition invoke_refused (q : string) : Call unit QA.Response :=
  fun w => (w, Raise (ExternalError "RateLimitError")).

Definition no_usage (w0 w1 : unit) : QA.Callback :=
  {| QA.total_tokens := 0; QA.total_cost := 0%float |}.

Lemma ask_with_context_degrades_on_failure_witness :
  exists a,
    QA.ask_with_context invoke_refused no_usage "Quem é Luke?" tt
    = (tt, Return a)
    /\ QA.question a = "Quem é Luke?"
    /\ QA.answer a = "Erro ao processar pergunta: RateLimitError"
    /\ QA.cypher_query a = ""
    /\ QA.raw_results a = []
    /\ QA.tokens_used a = 0
    /\ QA.cost a = 0%float.
Proof.
  exact (proj2 (ask_with_context_degrades_on_failure unit invoke_refused
                  no_usage "Quem é Luke?" tt)
           (ExternalError "RateLimitError") tt eq_refl).
Defined.

(** C10. [ask_simple] returns the ["answer"] of the result of
    [ask_with_context] on the same question and state of the world; when the
    chain raises this is the error text, returned and not raised. *)
Theorem ask_simple_returns_the_answer :
  forall (W : Type) (qa_chain_invoke : string -> Call W QA.Response)
         (callback : W -> W -> QA.Callback) (q : string) (w : W),
    (exists a w',
        QA.ask_with_context qa_chain_invoke callback q w = (w', Return a)
        /\ QA.ask_simple qa_chain_invoke callback q w
           = (w', Return (QA.answer a)))
    /\ (forall e w1,
           qa_chain_invoke q w = (w1, Raise e) ->
           QA.ask_simple qa_chain_invoke callback q w
           = (w1, Return ("Erro ao processar pergunta: " +:+ str e))).
Proof.
  intros W invoke callback q w. split.
  - destruct (ask_with_context_returns invoke callback q w) as (a & w' & H).
    exists a, w'. split; [exact H|].
    unfold QA.ask_simple, and_then, ret. now rewrite H.
  - intros e w1 H. unfold QA.ask_simple, and_then, ret.
    now rewrite (ask_with_context_raise invoke callback q w w1 e H).
Qed.

Lemma ask_simple_returns_the_answer_witness :
  QA.ask_simple invoke_refused no_usage "Quem é Luke?" tt
  = (tt, Return "Erro ao processar pergunta: RateLimitError").
Proof.
  exact (proj2 (ask_simple_returns_the_answer unit invoke_refused no_usage
                  "Quem é Luke?" tt)
           (ExternalError "RateLimitError") tt eq_refl).
Defined.

(** ** The chain and its cap on rows *)

Section Cap.

Import QA.

Context {W : Type}.
Variable generate : string -> Call W string.
Variable execute : string -> Call W Rows.
Variable synthesize : string -> Rows -> Call W string.
Variable callback : W -> W -> Callback.

(** The chain raises as soon as one of its three steps raises, and otherwise
    hands back the query and at most [k] of the rows. *)
Lemma chain_invoke_cases k q w :
  chain_invoke generate execute synthesize k q w =
  match generate q w with
  | (w1, Raise e) => (w1, Raise e)
  | (w1, Return cypher) =>
      match execute cypher w1 with
      | (w2, Raise e) => (w2, Raise e)
      | (w2, Return rows) =>
          match synthesize q (firstn k rows) w2 with
          | (w3, Raise e) => (w3, Raise e)
          | (w3, Return a) =>
              (w3, Return {| resp_result := Some a;
                             resp_intermediate_steps :=
                               Some [StepDict (Some cypher) None;
                                     StepDict None (Some (firstn k rows))] |})
          end
      end
  end.
Proof.
  unfold chain_invoke, and_then, ret.
  destruct (generate q w) as [w1 [cypher|e]]; [|reflexivity].
  destruct (execute cypher w1) as [w2 [rows|e]]; [|reflexivity].
  destruct (synthesize q (firstn k rows) w2) as [w3 [a|e]]; reflexivity.
Qed.

Lemma ask_with_context_rows q w :
  exists a w',
    ask_with_context (setup_qa_chain generate execute synthesize) callback q w
    = (w', Return a)
    /\ (raw_results a = []
        \/ exists rows, raw_results a = firstn top_k rows).
Proof.
  pose proof (ask_with_context_cases
                (setup_qa_chain generate execute synthesize) callback q w) as H.
  unfold setup_qa_chain in *. rewrite chain_invoke_cases in H.
  destruct (generate q w) as [w1 [cypher|e]];
    [|exists (degraded q e), w1; split; [exact H | now left]].
  destruct (execute cypher w1) as [w2 [rows|e]];
    [|exists (degraded q e), w2; split; [exact H | now left]].
  destruct (synthesize q (firstn top_k rows) w2) as [w3 [a|e]];
    [|exists (degraded q e), w3; split; [exact H | now left]].
  cbn in H. eexists _, w3. split; [exact H|].
  right. exists rows. reflexivity.
Qed.

End Cap.

(** C7. Whatever the question, the rows in [raw_results] are at most the
    top-K limit, which [setup_qa_chain] sets to 10: the chain keeps the
    first 10 rows of what the query returns, and [ask_with_context] copies
    them, or returns no rows at all when a step fails. *)
Theorem ask_with_context_caps_raw_results :
  forall (W : Type) (generate : string -> Call W string)
         (execute : string -> Call W Rows)
         (synthesize : string -> Rows -> Call W string)
         (callback : W -> W -> QA.Callback) (q : string) (w : W),
    QA.top_k = 10
    /\ exists a w',
        QA.ask_with_context (QA.setup_qa_chain generate execute synthesize)
          callback q w = (w', Return a)
        /\ length (QA.raw_results a) <= 10.
Proof.
  intros W generate execute synthesize callback q w.
  split; [reflexivity|].
  destruct (ask_with_context_rows generate execute synthesize callback q w)
    as (a & w' & H & Hrows).
  exists a, w'. split; [exact H|].
  destruct Hrows as [-> | [rows ->]]; simpl; [lia|].
  rewrite length_firstn. unfold QA.top_k. lia.
Qed.

(** ** The text splitter *)

Section SplitterFacts.

Import Splitter.

Context {char : Type} `{EqDecision char}.
Variable isspace : char -> bool.
Variable chunk_size chunk_overlap : Z.
Variable separator : list char.
Hypothesis overlap_nonneg : (0 <= chunk_overlap)%Z.

Local Abbreviation joined := (join separator).
Local Abbreviation sep_len := (separator_len separator).

Lemma len_nonneg (s : list char) : (0 <= len s)%Z.
Proof. unfold len. lia. Qed.

Lemma len_app (a b : list char) : len (a ++ b) = (len a + len b)%Z.
Proof. unfold len. rewrite length_app. lia. Qed.

Lemma len_nonempty (s : list char) : nonempty s = true -> (0 < len s)%Z.
Proof. destruct s; [discriminate|]. unfold len. simpl. lia. Qed.

Lemma join_cons (first : list char) (rest : list (list char)) :
  len (joined (first :: rest))
  = (len first
     + (if Nat.ltb 1 (length (first :: rest)) then sep_len else 0)
     + len (joined rest))%Z.
Proof.
  destruct rest as [|r rs].
  - simpl. unfold len at 3. simpl. lia.
  - change (joined (first :: r :: rs))
      with (first ++ separator ++ joined (r :: rs)).
    rewrite !len_app. unfold separator_len.
    change (Nat.ltb 1 (length (first :: r :: rs))) with true. cbv iota. lia.
Qed.

Lemma join_snoc (current_doc : list (list char)) (d : list char) :
  len (joined (current_doc ++ [d]))
  = (len (joined current_doc) + len d
     + (if Nat.ltb 1 (length (current_doc ++ [d])) then sep_len else 0))%Z.
Proof.
  induction current_doc as [|c cs IH].
  - simpl. unfold len at 2. simpl. lia.
  - change ((c :: cs) ++ [d]) with (c :: (cs ++ [d])).
    rewrite !join_cons, IH.
    replace (length (c :: cs ++ [d])) with (S (length (cs ++ [d])))
      by reflexivity.
    rewrite length_app. simpl length.
    repeat match goal with
           | |- context [Nat.ltb ?a ?b] => destruct (Nat.ltb_spec a b)
           end; lia.
Qed.

Lemma joined_positive (current_doc : list (list char)) :
  Forall (fun p => nonempty p = true) current_doc ->
  current_doc <> [] -> (0 < len (joined current_doc))%Z.
Proof.
  intros Hall Hne. destruct current_doc as [|first rest]; [congruence|].
  rewrite join_cons. apply Forall_cons in Hall as [Hfirst _].
  pose proof (len_nonempty first Hfirst).
  pose proof (len_nonneg (joined rest)).
  pose proof (len_nonneg separator). unfold separator_len.
  destruct (Nat.ltb 1 (length (first :: rest))); lia.
Qed.

Lemma lstrip_length (s : list char) :
  length (lstrip isspace s) <= length s.
Proof.
  induction s as [|c rest IH]; simpl; [lia|].
  destruct (isspace c); simpl; lia.
Qed.

Lemma strip_len (s : list char) : (len (strip isspace s) <= len s)%Z.
Proof.
  unfold strip, len. rewrite length_rev.
  pose proof (lstrip_length (rev (lstrip isspace s))).
  pose proof (lstrip_length s). rewrite length_rev in *. lia.
Qed.

Local Abbreviation pieces_nonempty :=
  (Forall (fun p : list char => nonempty p = true)).

(** Nothing more than needed was dropped in front of [kept]: with the last
    dropped piece [kept] would be longer than the overlap or leave no room
    for the next piece. *)
Definition dropped_no_more (_len : Z) (dropped kept : list (list char))
  : Prop :=
  dropped = []
  \/ exists before x,
       dropped = before ++ [x]
       /\ ((chunk_overlap < len (joined (x :: kept)))%Z
           \/ (chunk_size < len (joined (x :: kept)) + _len + sep_len)%Z).

(** The [while] loop, started with [total] the length of the joined
    [current_doc]: it never indexes an empty list, it keeps a suffix no
    longer than the overlap, what it keeps leaves room for the next
    piece, and it drops no more than that takes. *)
Lemma pop_front_spec (_len : Z) (current_doc : list (list char)) :
  pieces_nonempty current_doc ->
  exists dropped kept,
    current_doc = dropped ++ kept
    /\ pop_front chunk_size chunk_overlap separator _len current_doc
         (len (joined current_doc))
       = Return (kept, len (joined kept))
    /\ (len (joined kept) <= chunk_overlap)%Z
    /\ (kept = []
        \/ (len (joined kept) + _len + sep_len <= chunk_size)%Z)
    /\ dropped_no_more _len dropped kept.
Proof.
  induction current_doc as [|first rest IH]; intros Hall.
  - exists [], []. cbn [pop_front].
    change (len (joined [])) with 0%Z.
    replace (Z.ltb chunk_overlap 0) with false
      by (symmetry; apply Z.ltb_ge; lia).
    rewrite andb_false_r. cbn [orb]. repeat split; auto. now left.
  - apply Forall_cons in Hall as [Hfirst Hrest].
    cbn [pop_front].
    destruct (Z.ltb chunk_overlap (len (joined (first :: rest)))
              || (too_long chunk_size separator
                    (len (joined (first :: rest))) _len (first :: rest)
                  && Z.ltb 0 (len (joined (first :: rest))))) eqn:Cond.
    + destruct (IH Hrest) as (dropped & kept & E & P & O & R & M).
      exists (first :: dropped), kept. split; [now rewrite E|].
      split; [|split; [exact O | split; [exact R|]]].
      * rewrite <- P. f_equal. rewrite join_cons. lia.
      * right. destruct M as [->|(before & x & -> & M)].
        -- exists [], first. split; [reflexivity|].
           simpl in E. subst kept.
           apply orb_prop in Cond as [C|C].
           ++ left. now apply Z.ltb_lt in C.
           ++ right. apply andb_prop in C as [C _].
              unfold too_long in C. apply Z.ltb_lt in C.
              simpl length in C. cbn [Nat.ltb Nat.leb] in C. exact C.
        -- exists (first :: before), x. split; [reflexivity | exact M].
    + exists [], (first :: rest). split; [reflexivity|].
      split; [reflexivity|].
      apply orb_false_elim in Cond as [C1 C2]. apply Z.ltb_ge in C1.
      split; [exact C1|]. split; [|now left]. right.
      assert (Hpos : (0 < len (joined (first :: rest)))%Z).
      { apply joined_positive; [now constructor | discriminate]. }
      apply andb_false_elim in C2 as [C2|C2].
      * unfold too_long in C2. apply Z.ltb_ge in C2.
        simpl length in C2. cbn [Nat.ltb Nat.leb] in C2. exact C2.
      * apply Z.ltb_ge in C2. lia.
Qed.

(** A chunk is the stripped join of consecutive pieces of the text; it fits
    the chunk size unless it is a single piece. *)
Definition made_of (whole : list (list char)) (c : list char) : Prop :=
  exists pre seg post,
    whole = pre ++ seg ++ post
    /\ seg <> []
    /\ c = strip isspace (joined seg)
    /\ ((len c <= chunk_size)%Z \/ exists p, seg = [p]).

Lemma emit_made_of whole pre current_doc post docs :
  whole = pre ++ current_doc ++ post ->
  (len (joined current_doc) <= chunk_size)%Z \/ length current_doc <= 1 ->
  Forall (made_of whole) docs ->
  Forall (made_of whole) (emit isspace separator docs current_doc).
Proof.
  intros Hwhole Hfit Hdocs. unfold emit, join_docs.
  destruct (strip isspace (joined current_doc)) as [|c0 cs] eqn:E;
    [exact Hdocs|].
  apply Forall_app. split; [exact Hdocs|]. constructor; [|constructor].
  exists pre, current_doc, post. split; [exact Hwhole|].
  assert (Hne : current_doc <> []).
  { intros ->. discriminate E. }
  split; [exact Hne|]. split; [now rewrite E|].
  destruct Hfit as [Hfit|Hfit].
  - left. rewrite <- E. pose proof (strip_len (joined current_doc)). lia.
  - right. destruct current_doc as [|p [|q rest]];
      [congruence | now exists p | simpl in Hfit; lia].
Qed.

Lemma merge_loop_spec (whole : list (list char)) :
  pieces_nonempty whole ->
  forall splits done docs current_doc total,
    whole = done ++ splits ->
    (exists pre, done = pre ++ current_doc) ->
    total = len (joined current_doc) ->
    (total <= chunk_size)%Z \/ length current_doc <= 1 ->
    Forall (made_of whole) docs ->
    exists out,
      merge_loop isspace chunk_size chunk_overlap separator splits docs
        current_doc total = Return out
      /\ Forall (made_of whole) out.
Proof.
  intros Hpieces splits.
  induction splits as [|d rest IH];
    intros done docs current_doc total Hwhole [pre Hdone] Htotal Hfit Hdocs.
  - cbn [merge_loop]. eexists. split; [reflexivity|].
    apply (emit_made_of whole pre current_doc []); auto.
    + now rewrite Hwhole, Hdone, !app_nil_r.
    + now rewrite <- Htotal.
  - assert (Hcd : pieces_nonempty current_doc).
    { rewrite Hwhole, Hdone in Hpieces.
      apply Forall_app in Hpieces as [Hp _].
      now apply Forall_app in Hp as [_ Hp]. }
    assert (Hnext : whole = (done ++ [d]) ++ rest)
      by now rewrite <- app_assoc.
    pose proof (len_nonneg separator) as Hsep.
    cbn [merge_loop].
    destruct (too_long chunk_size separator total (len d) current_doc)
      eqn:Long;
      [destruct (Nat.ltb 0 (length current_doc)) eqn:Some_|].
    + destruct (pop_front_spec (len d) current_doc Hcd)
        as (dropped & kept & E & P & O & R & _).
      rewrite Htotal, P. cbn [bind].
      apply (IH (done ++ [d])).
      * exact Hnext.
      * exists (pre ++ dropped). now rewrite Hdone, E, <- !app_assoc.
      * now rewrite join_snoc.
      * destruct R as [->|R]; [now right|]. left.
        unfold separator_len in *.
        destruct (Nat.ltb 1 (length (kept ++ [d]))); lia.
      * apply (emit_made_of whole pre current_doc (d :: rest)).
        -- now rewrite Hwhole, Hdone, <- app_assoc.
        -- now rewrite <- Htotal.
        -- exact Hdocs.
    + cbn [bind]. apply Nat.ltb_ge in Some_.
      assert (current_doc = []) as ->
          by (destruct current_doc; simpl in *; [reflexivity|lia]).
      apply (IH (done ++ [d])).
      * exact Hnext.
      * exists pre. now rewrite Hdone, !app_nil_r.
      * now rewrite Htotal, join_snoc.
      * right. simpl. lia.
      * exact Hdocs.
    + cbn [bind].
      apply (IH (done ++ [d])).
      * exact Hnext.
      * exists pre. now rewrite Hdone, <- app_assoc.
      * now rewrite Htotal, join_snoc.
      * left. unfold too_long in Long. apply Z.ltb_ge in Long.
        rewrite length_app. simpl length. unfold separator_len in *.
        destruct current_doc as [|c cs]; simpl length in *.
        -- cbn [Nat.ltb Nat.leb Nat.add] in *. lia.
        -- replace (Nat.ltb 1 (S (length cs) + 1)) with true
             by (symmetry; apply Nat.ltb_lt; lia).
           cbn [Nat.ltb Nat.leb] in Long. lia.
      * exact Hdocs.
Qed.

Lemma split_text_with_regex_nonempty (text : list char) :
  pieces_nonempty (split_text_with_regex separator text).
Proof.
  unfold split_text_with_regex. destruct separator as [|s0 sep].
  - induction text as [|c rest IH]; simpl; constructor; auto.
  - apply Forall_forall. intros p Hp.
    apply list_elem_of_filter in Hp as [Hp _]. now apply Is_true_true.
Qed.

(** [split_text] returns, and its chunks are made of whole pieces. *)
Lemma split_text_spec (text : list char) :
  exists chunks,
    split_text isspace chunk_size chunk_overlap separator text = Return chunks
    /\ Forall (made_of (split_text_with_regex separator text)) chunks.
Proof.
  unfold split_text, merge_splits.
  apply (merge_loop_spec (split_text_with_regex separator text)
           (split_text_with_regex_nonempty text)
           (split_text_with_regex separator text) [] [] [] 0%Z).
  - reflexivity.
  - now exists [].
  - reflexivity.
  - right. simpl. lia.
  - constructor.
Qed.

(** *** The windows of the merge

    The merge goes through the pieces with a window: a window takes over
    the last pieces of the window before it (the overlap) and adds new
    pieces to them. *)

Record Window : Type :=
  { carried : list (list char);       (* taken over from the window before *)
    fresh : list (list char) }.       (* added by this window *)

Definition segment (s : Window) : list (list char) := carried s ++ fresh s.

(** A window that follows the segment [prev]: what it carries over is a
    suffix of [prev] no longer than the overlap, and as long a one as the
    overlap and the room for the first new piece allow; it adds at least
    one piece; it fits the chunk size unless it is a single piece; and the
    window before it was closed because the first new piece did not fit. *)
Definition step_ok (prev : list (list char)) (s : Window) : Prop :=
  (exists dropped,
      prev = dropped ++ carried s
      /\ dropped_no_more (len (hd [] (fresh s))) dropped (carried s))
  /\ (len (joined (carried s)) <= chunk_overlap)%Z
  /\ fresh s <> []
  /\ ((len (joined (segment s)) <= chunk_size)%Z \/ exists p, segment s = [p])
  /\ (prev = []
      \/ (chunk_size < len (joined prev) + len (hd [] (fresh s)) + sep_len)%Z).

Fixpoint chained (prev : list (list char)) (steps : list Window) : Prop :=
  match steps with
  | [] => True
  | s :: rest => step_ok prev s /\ chained (segment s) rest
  end.

(** The chunks of the windows: the stripped join of each segment, left out
    when it is empty. *)
Definition chunks_of (steps : list Window) : list (list char) :=
  omap (fun s => join_docs isspace separator (segment s)) steps.

Definition last_segment (prev : list (list char)) (steps : list Window)
  : list (list char) :=
  fold_left (fun _ s => segment s) steps prev.

Lemma chained_snoc prev steps s :
  chained prev (steps ++ [s])
  <-> chained prev steps /\ step_ok (last_segment prev steps) s.
Proof.
  revert prev. induction steps as [|s0 rest IH]; intros prev; simpl.
  - tauto.
  - rewrite IH. tauto.
Qed.

Lemma last_segment_snoc prev steps s :
  last_segment prev (steps ++ [s]) = segment s.
Proof. unfold last_segment. now rewrite fold_left_app. Qed.

Lemma fresh_snoc steps s :
  concat (map fresh (steps ++ [s])) = concat (map fresh steps) ++ fresh s.
Proof. rewrite map_app, concat_app. simpl. now rewrite app_nil_r. Qed.

Lemma emit_chunks steps s :
  emit isspace separator (chunks_of steps) (segment s)
  = chunks_of (steps ++ [s]).
Proof.
  unfold emit, chunks_of. rewrite omap_app. simpl.
  destruct (join_docs isspace separator (segment s));
    [reflexivity | now rewrite app_nil_r].
Qed.

(** The loop, from the state it is in after the pieces [done]: either
    nothing was read yet, or the windows [steps] were closed and the window
    [s] is open. *)
Lemma merge_loop_windows (whole : list (list char)) :
  pieces_nonempty whole ->
  forall splits done docs current_doc,
    whole = done ++ splits ->
    pieces_nonempty current_doc ->
    (done = [] /\ docs = [] /\ current_doc = []
     \/ exists steps s,
          done = concat (map fresh (steps ++ [s]))
          /\ current_doc = segment s
          /\ docs = chunks_of steps
          /\ chained [] (steps ++ [s])) ->
    exists steps,
      whole = concat (map fresh steps)
      /\ chained [] steps
      /\ merge_loop isspace chunk_size chunk_overlap separator splits docs
           current_doc (len (joined current_doc))
         = Return (chunks_of steps).
Proof.
  intros Hpieces splits.
  induction splits as [|d rest IH]; intros done docs current_doc Hwhole Hcd Inv.
  - rewrite app_nil_r in Hwhole. cbn [merge_loop].
    destruct Inv as [(-> & -> & ->) | (steps & s & Hdone & -> & -> & Hch)].
    + exists []. repeat split; auto.
    + exists (steps ++ [s]). rewrite emit_chunks. subst. auto.
  - assert (Hd : nonempty d = true).
    { rewrite Hwhole in Hpieces. apply Forall_app in Hpieces as [_ Hp].
      now apply Forall_cons in Hp as [Hp _]. }
    assert (Hnext : whole = (done ++ [d]) ++ rest)
      by now rewrite <- app_assoc.
    pose proof (len_nonneg separator) as Hsep.
    cbn [merge_loop].
    destruct Inv as [(-> & -> & ->) | (steps & s & Hdone & -> & -> & Hch)].
    + (* the first piece *)
      replace (if too_long chunk_size separator (len (joined [])) (len d) []
               then if Nat.ltb 0 (length (@nil (list char)))
                    then
                      let! (cd, tot) :=
                        pop_front chunk_size chunk_overlap separator (len d) []
                          (len (joined [])) in
                      Return (emit isspace separator [] [], cd, tot)
                    else Return ([], [], len (joined []))
               else Return ([], [], len (joined [])))
        with (@Return (list (list char) * list (list char) * Z)
                ([], [], len (joined [])))
        by (destruct (too_long _ _ _ _ _); reflexivity).
      cbn [bind]. rewrite <- join_snoc.
      apply (IH ([] ++ [d])); [exact Hnext | now constructor |].
      right. exists [], {| carried := []; fresh := [d] |}.
      repeat split; try reflexivity; simpl.
      * exists []. split; [reflexivity | now left].
      * change (len []) with 0%Z. exact overlap_nonneg.
      * discriminate.
      * right. now exists d.
      * now left.
    + (* a window is open *)
      apply chained_snoc in Hch as [Hsteps Hs].
      destruct Hs as (Hsuffix & Hover & Hfresh & Hfits & Hclosed).
      assert (Hlen : Nat.ltb 0 (length (segment s)) = true).
      { apply Nat.ltb_lt. unfold segment. rewrite length_app.
        destruct (fresh s); [congruence | simpl; lia]. }
      rewrite Hlen.
      destruct (too_long chunk_size separator (len (joined (segment s)))
                  (len d) (segment s)) eqn:Long.
      * (* the piece does not fit: the window is closed *)
        destruct (pop_front_spec (len d) (segment s) Hcd)
          as (dropped & kept & E & P & O & R & M).
        rewrite P. cbn [bind]. rewrite emit_chunks, <- join_snoc.
        apply (IH (done ++ [d])); [exact Hnext | |].
        -- apply Forall_app. split; [|now constructor].
           rewrite E in Hcd. now apply Forall_app in Hcd as [_ Hk].
        -- right. exists (steps ++ [s]), {| carried := kept; fresh := [d] |}.
           split; [rewrite (fresh_snoc (steps ++ [s])), <- Hdone; reflexivity|].
           split; [reflexivity|]. split; [reflexivity|].
           apply chained_snoc. split.
           ++ apply chained_snoc. split; [exact Hsteps|].
              repeat split; assumption.
           ++ rewrite last_segment_snoc.
              repeat split; cbn [carried fresh hd].
              ** exists dropped. split; [exact E | exact M].
              ** exact O.
              ** discriminate.
              ** unfold segment; cbn [carried fresh].
                 destruct R as [->|R]; [right; now exists d|]. left.
                 rewrite join_snoc. unfold separator_len in *.
                 destruct (Nat.ltb 1 (length (kept ++ [d]))); lia.
              ** right. unfold too_long in Long. rewrite Hlen in Long.
                 apply Z.ltb_lt in Long. exact Long.
      * (* the piece fits: the window grows *)
        cbn [bind]. rewrite <- join_snoc.
        apply (IH (done ++ [d])); [exact Hnext | |].
        -- apply Forall_app. split; [exact Hcd | now constructor].
        -- right.
           exists steps, {| carried := carried s; fresh := fresh s ++ [d] |}.
           split.
           { rewrite fresh_snoc. cbn [fresh].
             rewrite Hdone, fresh_snoc. now rewrite app_assoc. }
           split; [unfold segment; cbn [carried fresh]; now rewrite app_assoc|].
           split; [reflexivity|].
           apply chained_snoc. split; [exact Hsteps|].
           repeat split; cbn [carried fresh].
           ++ destruct Hsuffix as (dropped & E & M). exists dropped.
              split; [exact E|].
              destruct (fresh s); [congruence | exact M].
           ++ exact Hover.
           ++ destruct (fresh s); discriminate.
           ++ left. unfold segment at 1; cbn [carried fresh].
              rewrite app_assoc. fold (segment s). rewrite join_snoc.
              unfold too_long in Long. rewrite Hlen in Long.
              apply Z.ltb_ge in Long. unfold separator_len in *.
              destruct (Nat.ltb 1 (length (segment s ++ [d]))); lia.
           ++ destruct Hclosed as [->|Hclosed]; [now left|]. right.
              destruct (fresh s); [congruence | exact Hclosed].
Qed.

(** [split_text] returns the chunks of windows that cover the pieces of the
    text, in order. *)
Lemma split_text_windows (text : list char) :
  exists steps,
    split_text_with_regex separator text = concat (map fresh steps)
    /\ chained [] steps
    /\ split_text isspace chunk_size chunk_overlap separator text
       = Return (chunks_of steps).
Proof.
  unfold split_text, merge_splits.
  change 0%Z with (len (joined [])).
  apply (merge_loop_windows (split_text_with_regex separator text)
           (split_text_with_regex_nonempty text)
           (split_text_with_regex separator text) [] [] []).
  - reflexivity.
  - constructor.
  - now left.
Qed.

End SplitterFacts.

(** ** Chunks of the loaded pages *)

Section ChunkFacts.

Import Splitter.

(** The paragraphs of a page: the non-empty pieces between separators. *)
Definition paragraphs (text : Text) : list Text :=
  split_text_with_regex Builder.separator text.

(** The chunks of a page: windows over its paragraphs, with the sizes of
    main.py.  The new pieces of the windows, put end to end, are the
    paragraphs of the page; each window carries over from the one before it
    a suffix of at most 150 characters, as long a one as the overlap and the
    room for its first new paragraph allow, is at most 1000 characters long
    unless it is a single paragraph, and follows a window that the next
    paragraph did not fit; the chunks are the stripped joins of the windows,
    without the empty ones. *)
Definition chunking (text : Text) (chunks : list Text) : Prop :=
  exists steps,
    paragraphs text = concat (map fresh steps)
    /\ chained Builder.chunk_size Builder.chunk_overlap Builder.separator
         [] steps
    /\ chunks = chunks_of Builder.isspace Builder.separator steps.

(** The chunks of the pages, page after page; a chunk keeps the page
    number of its page. *)
Fixpoint pages_chunked (docs chunks : list Document) : Prop :=
  match docs with
  | [] => chunks = []
  | doc :: rest =>
      exists texts more,
        chunks
        = map (fun t => {| page_content := t; page := page doc |}) texts
          ++ more
        /\ chunking (page_content doc) texts
        /\ pages_chunked rest more
  end.

(** A chunk of a page: consecutive paragraphs joined and stripped, within
    the chunk size unless it is a single paragraph. *)
Definition chunk_of (text : Text) (c : Text) : Prop :=
  exists pre seg post,
    paragraphs text = pre ++ seg ++ post
    /\ seg <> []
    /\ c = strip Builder.isspace (join Builder.separator seg)
    /\ (length c <= 1000 \/ exists p, seg = [p]).

Lemma made_of_chunk_of (text c : Text) :
  made_of Builder.isspace Builder.chunk_size Builder.separator
    (paragraphs text) c ->
  chunk_of text c.
Proof.
  intros (pre & seg & post & Hwhole & Hne & Hc & Hfit).
  exists pre, seg, post. repeat split; auto.
  destruct Hfit as [Hfit|Hfit]; [left | now right].
  unfold len, Builder.chunk_size in Hfit. lia.
Qed.

Lemma overlap_nonneg : (0 <= Builder.chunk_overlap)%Z.
Proof. unfold Builder.chunk_overlap. lia. Qed.

Lemma builder_split_text_spec (text : Text) :
  exists chunks,
    Builder.split_text text = Return chunks
    /\ chunking text chunks
    /\ Forall (chunk_of text) chunks.
Proof.
  unfold Builder.split_text.
  destruct (split_text_windows Builder.isspace Builder.chunk_size
              Builder.chunk_overlap Builder.separator overlap_nonneg text)
    as (steps & Hcover & Hchain & E).
  destruct (split_text_spec Builder.isspace Builder.chunk_size
              Builder.chunk_overlap Builder.separator overlap_nonneg text)
    as (chunks & E' & Hall).
  rewrite E in E'. injection E' as <-.
  eexists. split; [exact E|]. split.
  - now exists steps.
  - eapply Forall_impl; [exact Hall|].
    intros l Hl. now apply made_of_chunk_of.
Qed.

Lemma split_documents_spec (docs : list Document) :
  exists chunks,
    Builder.split_documents docs = Return chunks
    /\ pages_chunked docs chunks
    /\ Forall (fun c => exists doc,
                   In doc docs /\ page c = page doc
                   /\ chunk_of (page_content doc) (page_content c)) chunks.
Proof.
  induction docs as [|doc rest (chunks & IH & Hpages & Hall)];
    cbn [Builder.split_documents].
  - eexists. repeat split; constructor.
  - destruct (builder_split_text_spec (page_content doc))
      as (texts & -> & Hwin & Htexts).
    rewrite IH. cbn [bind]. eexists. split; [reflexivity|]. split.
    + cbn [pages_chunked]. now exists texts, chunks.
    + apply Forall_app. split.
      * apply Forall_map. eapply Forall_impl; [exact Htexts|].
        intros t Ht. exists doc. simpl. auto.
      * eapply Forall_impl; [exact Hall|].
        intros c (doc' & Hin & Hp & Hc). exists doc'. simpl. auto.
Qed.

End ChunkFacts.


Definition always_exists (path : string) (w : unit) : bool := true.

Definition load_page (text : Text) (path : string)
  : Call unit (list Document) :=
  fun w => (w, Return [{| page_content := text; page := 0 |}]).

(** A page of three paragraphs of 600, 100 and 600 characters. *)
Definition three_paragraphs : Text :=
  repeat 97%N 600 ++ Builder.separator
  ++ repeat 98%N 100 ++ Builder.separator
  ++ repeat 99%N 600.




(** ** The splitter on small texts *)

Section SplitterExamples.

(** A literal is read by its characters, not by its bytes. *)
Example text_of_accents : text "Vou à" = [86; 111; 117; 32; 224]%N.
Proof. reflexivity. Qed.

(** [CharacterTextSplitter(separator=" ", chunk_size, chunk_overlap)] on
    a text. *)
Definition split_words (size overlap : Z) (s : string) : result (list Text) :=
  Splitter.split_text Builder.isspace size overlap (text " ") (text s).

Example split_words_overlap :
  split_words 7 3 "foo bar baz 123"
  = Return (map text ["foo bar"; "bar baz"; "baz 123"]).
Proof. reflexivity. Qed.

Example split_words_empty_piece :
  split_words 2 0 "foo  bar" = Return (map text ["foo"; "bar"]).
Proof. reflexivity. Qed.

Example split_words_long_words :
  split_words 3 1 "foo bar baz a a"
  = Return (map text ["foo"; "bar"; "baz"; "a a"]).
Proof. reflexivity. Qed.

Example split_words_short_words_first :
  split_words 3 1 "a a foo bar baz"
  = Return (map text ["a a"; "foo"; "bar"; "baz"]).
Proof. reflexivity. Qed.

(** Two short paragraphs make one chunk, separator included. *)
Example split_text_two_paragraphs :
  Builder.split_text
    (text "Luke Skywalker nasceu em Tatooine." ++ Builder.separator
     ++ text "Leia Organa nasceu em Alderaan.")
  = Return [text "Luke Skywalker nasceu em Tatooine." ++ Builder.separator
            ++ text "Leia Organa nasceu em Alderaan."].
Proof. reflexivity. Qed.

(** The second chunk starts with the paragraph of 100 characters the first
    one ended with. *)
Example split_text_three_paragraphs :
  Builder.split_text three_paragraphs
  = Return [repeat 97%N 600 ++ Builder.separator ++ repeat 98%N 100;
            repeat 98%N 100 ++ Builder.separator ++ repeat 99%N 600].
Proof. vm_compute. reflexivity. Qed.

(** A character outside ASCII counts for one, and an accented letter at the
    end of a chunk is not white space: two paragraphs of 400 times "é" make
    one chunk of 802 characters, and "Vou à" keeps its last letter. *)
Example split_text_counts_characters :
  Builder.split_text
    (repeat 233%N 400 ++ Builder.separator ++ repeat 233%N 400)
  = Return [repeat 233%N 400 ++ Builder.separator ++ repeat 233%N 400].
Proof. vm_compute. reflexivity. Qed.

Example split_text_keeps_accents :
  Builder.split_text (text "  Vou à ") = Return [text "Vou à"].
Proof. reflexivity. Qed.

(** White space outside Latin-1 is stripped as well (U+3000, U+2003). *)
Example split_text_strips_wide_space :
  Builder.split_text ([12288; 8195]%N ++ text "Yoda" ++ [8195]%N)
  = Return [text "Yoda"].
Proof. reflexivity. Qed.

End SplitterExamples.

(** ** The cap on a query that matches twelve rows *)

Section CapExample.

Definition twelve_rows : Rows :=
  map (fun i => [("p.nome", CInt (Z.of_nat i))]) (seq 0 12).

Definition generate_match (q : string) : Call unit string :=
  fun w => (w, Return "MATCH (p:Personagem) RETURN p.nome").

Definition execute_twelve (cypher : string) : Call unit Rows :=
  fun w => (w, Return twelve_rows).

Definition synthesize_count (q : string) (context : Rows) : Call unit string :=
  fun w => (w, Return ("Linhas: " +:+ pretty (length context))).

Example ask_with_context_twelve_rows :
  match QA.ask_with_context
          (QA.setup_qa_chain generate_match execute_twelve synthesize_count)
          no_usage "Quais personagens existem?" tt with
  | (_, Return a) =>
      QA.raw_results a = firstn 10 twelve_rows
      /\ length (QA.raw_results a) = 10
      /\ QA.cypher_query a = "MATCH (p:Personagem) RETURN p.nome"
      /\ QA.answer a = "Linhas: 10"
  | (_, Raise _) => False
  end.
Proof. vm_compute. repeat split. Qed.

End CapExample.

(** * Further properties *)

(** ** A missing file *)

(** X1. When the path does not exist, [load_and_process_documents] raises
    [FileNotFoundError] with a message that names the path; the loader is not
    called, so the state of the world is the one before the call, and nothing
    is logged. *)
Theorem load_and_process_documents_missing_file :
  forall (W : Type) (path_exists : string -> W -> bool)
         (loader_load : string -> Call W (list Document))
         (pdf_path : string) (log : Log) (w : W),
    path_exists pdf_path w = false ->
    Builder.load_and_process_documents path_exists loader_load pdf_path w log
    = (w, log,
       Raise (FileNotFoundError ("Arquivo não encontrado: " +:+ pdf_path))).
Proof.
  intros W path_exists loader_load pdf_path log w H.
  unfold Builder.load_and_process_documents. now rewrite H.
Qed.

Definition never_exists (path : string) (w : list string) : bool := false.

(** A loader that records the paths it was asked to load. *)
Definition recording_loader (path : string) : Call (list string) (list Document) :=
  fun w => (w ++ [path], Return []).

Lemma load_and_process_documents_missing_file_witness :
  Builder.load_and_process_documents never_exists recording_loader
    "docs/pdf.pdf" [] []
  = ([], [], Raise (FileNotFoundError "Arquivo não encontrado: docs/pdf.pdf")).
Proof.
  exact (load_and_process_documents_missing_file (list string) never_exists
           recording_loader "docs/pdf.pdf" [] [] eq_refl).
Defined.

(** When the file exists and the loader raises, the record written before
    the call stays in the log and the exception of the loader is raised. *)
Lemma load_and_process_documents_loader_fails :
  forall (W : Type) (path_exists : string -> W -> bool)
         (loader_load : string -> Call W (list Document))
         (pdf_path : string) (log : Log) (w w1 : W) (e : Exception),
    path_exists pdf_path w = true ->
    loader_load pdf_path w = (w1, Raise e) ->
    Builder.load_and_process_documents path_exists loader_load pdf_path w log
    = (w1, log ++ [Builder.loading pdf_path], Raise e).
Proof.
  intros W path_exists loader_load pdf_path log w w1 e Hexists Hload.
  unfold Builder.load_and_process_documents.
  now rewrite Hexists, Hload.
Qed.

(** ** Manual facts, statement by statement *)

(** X2. [add_manual_knowledge] sends its four statements in order, each in a
    [try] of its own: whatever the connection answers to a statement, the
    following ones are still sent, and the log grows by one record for each
    statement. *)
Theorem add_manual_knowledge_attempts_every_statement :
  forall (W : Type) (graph_query : Statement -> Call W Rows)
         (w : W) (issued : list Statement) (log : Log),
    snd (fst (Builder.add_manual_knowledge (traced graph_query) (w, issued) log))
    = issued ++ Builder.manual_data
    /\ length (snd (Builder.add_manual_knowledge graph_query w log))
       = length log + 4.
Proof.
  intros W graph_query w issued log. unfold Builder.add_manual_knowledge.
  split.
  - apply each_in_try_trace.
  - now rewrite each_in_try_log.
Qed.

(** ** A response without its result *)

(** X3. When the chain returns a response that has no ["result"] key, the
    [KeyError] raised by [response["result"]] is caught like any other: the
    degraded result comes back, and its answer shows the key in quotes. *)
Theorem ask_with_context_missing_result :
  forall (W : Type) (qa_chain_invoke : string -> Call W QA.Response)
         (callback : W -> W -> QA.Callback) (q : string) (w w1 : W)
         (response : QA.Response),
    qa_chain_invoke q w = (w1, Return response) ->
    QA.resp_result response = None ->
    QA.ask_with_context qa_chain_invoke callback q w
    = (w1, Return {| QA.question := q;
                     QA.answer := "Erro ao processar pergunta: 'result'";
                     QA.cypher_query := "";
                     QA.raw_results := [];
                     QA.tokens_used := 0;
                     QA.cost := 0%float |}).
Proof.
  intros W invoke callback q w w1 response Hinvoke Hresult.
  pose proof (ask_with_context_cases invoke callback q w) as H.
  rewrite Hinvoke, Hresult in H. exact H.
Qed.

(** A chain that hands back its steps and no result. *)
Definition invoke_without_result (q : string) : Call unit QA.Response :=
  fun w =>
    (w, Return {| QA.resp_result := None;
                  QA.resp_intermediate_steps :=
                    Some [QA.StepDict (Some "MATCH (n) RETURN n") None] |}).

Lemma ask_with_context_missing_result_witness :
  QA.ask_with_context invoke_without_result no_usage "Quem é Luke?" tt
  = (tt, Return {| QA.question := "Quem é Luke?";
                   QA.answer := "Erro ao processar pergunta: 'result'";
                   QA.cypher_query := "";
                   QA.raw_results := [];
                   QA.tokens_used := 0;
                   QA.cost := 0%float |}).
Proof.
  exact (ask_with_context_missing_result unit invoke_without_result no_usage
           "Quem é Luke?" tt tt _ eq_refl eq_refl).
Defined.

(** ** What the totals count *)

Section TotalsFacts.

Lemma filter_matches_any (v : string) (ns : list Node) :
  filter (matches (Builder.any_node v)) ns = ns.
Proof.
  induction ns as [|n rest IH]; [reflexivity|].
  rewrite filter_cons_True by exact I. now rewrite IH.
Qed.

(** The rows the totals query aggregates for one node: one per relationship
    of the graph, or a single row with a null relationship when the graph has
    none. *)
Definition totals_rows (rels : list Relationship) (n : Node) : Table :=
  match rels with
  | [] => [[("r", ENull); ("n", ENode (node_id n))]]
  | _ :: _ =>
      map (fun r => [("r", ERel (rel_id r)); ("n", ENode (node_id n))]) rels
  end.

Lemma exec_row_optional_match (g : Graph) (n : Node) :
  exec_row (OPTIONAL_MATCH_REL "r") (bind_node "n" [] n) g
  = Return (g, totals_rows (relationships g) n).
Proof.
  unfold exec_row, totals_rows. destruct (relationships g); reflexivity.
Qed.

Lemma exec_optional_match_rows (g : Graph) (ns : list Node) :
  exec_clause (OPTIONAL_MATCH_REL "r") (map (bind_node "n" []) ns) g
  = Return (g, flat_map (totals_rows (relationships g)) ns).
Proof.
  induction ns as [|n rest IH]; [reflexivity|].
  cbn [map exec_clause]. rewrite exec_row_optional_match. cbn [bind].
  rewrite IH. reflexivity.
Qed.

Lemma totals_table (g : Graph) :
  exec_body [MATCH (Builder.any_node "n"); OPTIONAL_MATCH_REL "r"] [[]] g
  = Return (g, flat_map (totals_rows (relationships g)) (nodes g)).
Proof.
  cbn [exec_body exec_clause exec_row bind Builder.any_node pat_var].
  change {| pat_var := "n"; pat_label := None; pat_props := [] |}
    with (Builder.any_node "n").
  rewrite filter_matches_any, app_nil_r. cbn [bind].
  rewrite exec_optional_match_rows. reflexivity.
Qed.

Lemma node_table (g : Graph) :
  exec_body [MATCH (Builder.any_node "n")] [[]] g
  = Return (g, map (bind_node "n" []) (nodes g)).
Proof.
  cbn [exec_body exec_clause exec_row bind Builder.any_node pat_var].
  change {| pat_var := "n"; pat_label := None; pat_props := [] |}
    with (Builder.any_node "n").
  now rewrite filter_matches_any, app_nil_r.
Qed.

Lemma rel_table (g : Graph) :
  exec_body [MATCH_REL "r"] [[]] g
  = Return (g, map (bind_rel "r" []) (relationships g)).
Proof.
  cbn [exec_body exec_clause exec_row bind]. now rewrite app_nil_r.
Qed.

Lemma count_rows_app (v : string) (a b : Table) :
  count_rows v (a ++ b) = count_rows v a + count_rows v b.
Proof. unfold count_rows. now rewrite map_app, list_sum_app. Qed.

Lemma count_rows_totals_rows (rels : list Relationship) (n : Node) :
  count_rows "r" (totals_rows rels n) = length rels.
Proof.
  unfold totals_rows. destruct rels as [|r0 rs]; [reflexivity|].
  generalize (r0 :: rs). intros l. unfold count_rows.
  induction l as [|r l IH]; [reflexivity|]. simpl in *. now rewrite IH.
Qed.

Lemma count_rows_totals (rels : list Relationship) (ns : list Node) :
  count_rows "r" (flat_map (totals_rows rels) ns) = length ns * length rels.
Proof.
  induction ns as [|n rest IH]; [reflexivity|].
  cbn [flat_map]. rewrite count_rows_app, count_rows_totals_rows, IH.
  simpl. lia.
Qed.

Lemma distinct_app (v : string) (a b : Table) :
  forall seen, distinct v (a ++ b) seen = distinct v b (distinct v a seen).
Proof.
  induction a as [|row a IH]; intros seen; [reflexivity|].
  cbn [app distinct]. destruct (bound v row) as [e|]; [|apply IH].
  destruct (is_null (Some e) || existsb (Entity_eqb e) seen); apply IH.
Qed.

Lemma existsb_node_seen (id : nat) (done : list nat) :
  existsb (Entity_eqb (ENode id)) (map ENode done) = true <-> In id done.
Proof.
  induction done as [|d rest IH]; simpl; [split; [discriminate|tauto]|].
  rewrite orb_true_iff, IH, Nat.eqb_eq. split; intros [H|H]; auto.
Qed.

(** The rows of one node add its identifier once, however many they are. *)
Lemma distinct_totals_rows (rels : list Relationship) (n : Node)
  (done : list nat) :
  ~ In (node_id n) done ->
  distinct "n" (totals_rows rels n) (map ENode done)
  = map ENode (done ++ [node_id n]).
Proof.
  intros Hfresh.
  assert (Hnew : existsb (Entity_eqb (ENode (node_id n))) (map ENode done)
                 = false).
  { destruct (existsb _ _) eqn:E; [|reflexivity].
    now apply existsb_node_seen in E. }
  assert (Hold : existsb (Entity_eqb (ENode (node_id n)))
                   (map ENode (done ++ [node_id n])) = true).
  { apply existsb_node_seen, in_or_app. right. now left. }
  unfold totals_rows. destruct rels as [|r0 rs].
  - cbn [distinct bound String.eqb Ascii.eqb Bool.eqb is_null orb].
    rewrite Hnew. cbn [distinct]. now rewrite map_app.
  - cbn [map distinct bound String.eqb Ascii.eqb Bool.eqb is_null orb].
    rewrite Hnew.
    change (map ENode done ++ [ENode (node_id n)])
      with (map ENode done ++ map ENode [node_id n]).
    rewrite <- (map_app ENode done [node_id n]).
    induction rs as [|r rs IH]; [reflexivity|].
    cbn [map distinct bound String.eqb Ascii.eqb Bool.eqb is_null orb].
    rewrite Hold. exact IH.
Qed.

Lemma distinct_totals (rels : list Relationship) (ns : list Node) :
  forall done,
    NoDup (done ++ map node_id ns) ->
    distinct "n" (flat_map (totals_rows rels) ns) (map ENode done)
    = map ENode (done ++ map node_id ns).
Proof.
  induction ns as [|n rest IH]; intros done Hnodup.
  - simpl. now rewrite app_nil_r.
  - cbn [flat_map map]. rewrite distinct_app, distinct_totals_rows.
    + rewrite IH; rewrite <- app_assoc; [reflexivity | exact Hnodup].
    + apply NoDup_app in Hnodup as (_ & Hdisj & _).
      intros Hin. apply (Hdisj (node_id n)).
      * now apply list_elem_of_In.
      * apply list_elem_of_In. now left.
Qed.

End TotalsFacts.

(** X4. On a graph whose nodes have distinct identifiers, the totals row of
    [validate_graph] holds the number of nodes under [total_nodes], and under
    [total_relationships] the number of nodes times the number of
    relationships: the optional match pairs every node with every
    relationship, and [count(r)] counts the pairs. *)
Theorem validate_graph_totals_count_pairs (g : Graph) :
  NoDup (map node_id (nodes g)) ->
  exists stats,
    Builder.validate_graph query g = (g, Return stats)
    /\ Builder.totals stats
       = [("total_nodes", CInt (Z.of_nat (length (nodes g))));
          ("total_relationships",
           CInt (Z.of_nat (length (nodes g) * length (relationships g))))].
Proof.
  intros Hnodup.
  unfold Builder.validate_graph, and_then, lift, ret.
  destruct (query_group_count [MATCH (Builder.any_node "n")]
              (FirstLabel "n") "label" "n" "count" g eq_refl)
    as (rows1 & E1 & C1).
  unfold Builder.node_counts_query. rewrite E1.
  destruct (C1 []) as [d1 ->].
  destruct (query_group_count [MATCH_REL "r"]
              (TypeOf "r") "relationship" "r" "count" g eq_refl)
    as (rows2 & E2 & C2).
  unfold Builder.rel_counts_query. rewrite E2.
  destruct (C2 []) as [d2 ->].
  unfold Builder.totals_query. cbn [query]. rewrite totals_table.
  cbn [project Dict.first]. eexists. split; [reflexivity|].
  cbn [Builder.totals].
  pose proof (distinct_totals (relationships g) (nodes g) [] Hnodup) as D.
  cbn [map app] in D. rewrite D.
  rewrite count_rows_totals, !length_map. reflexivity.
Qed.

Lemma validate_graph_totals_count_pairs_witness :
  exists stats,
    Builder.validate_graph query manual_once = (manual_once, Return stats)
    /\ Builder.totals stats
       = [("total_nodes", CInt 10); ("total_relationships", CInt 30)].
Proof.
  apply (validate_graph_totals_count_pairs manual_once).
  apply (bool_decide_unpack _). vm_compute. exact I.
Defined.

(** ** Statements made of MERGE clauses *)

Section MergeFacts.

(** No key occurs twice in a property map. *)
Fixpoint distinct_keys (ps : Props) : bool :=
  match ps with
  | [] => true
  | (k, _) :: rest =>
      negb (existsb (String.eqb k) (map fst rest)) && distinct_keys rest
  end.

(** A statement that only merges nodes, each pattern naming a key once. *)
Definition merges_only (s : Statement) : bool :=
  match s with
  | Query body None =>
      forallb (fun c => match c with
                        | MERGE p => distinct_keys (pat_props p)
                        | _ => false
                        end) body
  | _ => false
  end.

Lemma Value_eqb_refl (v : Value) : Value_eqb v v = true.
Proof. destruct v; simpl; [apply Z.eqb_refl | apply String.eqb_refl]. Qed.

Lemma prop_distinct_keys (ps : Props) (k : string) (v : Value) :
  distinct_keys ps = true -> In (k, v) ps -> prop k ps = Some v.
Proof.
  induction ps as [|[k' v'] rest IH]; intros Hd Hin; [destruct Hin|].
  simpl in Hd. apply andb_prop in Hd as [Hfresh Hrest]. simpl.
  destruct Hin as [[= -> ->]|Hin].
  - now rewrite String.eqb_refl.
  - destruct (String.eqb_spec k k') as [->|Hne]; [|now apply IH].
    apply negb_true_iff in Hfresh.
    assert (existsb (String.eqb k') (map fst rest) = true) as E.
    { apply existsb_exists. exists k'. split; [|apply String.eqb_refl].
      apply in_map_iff. now exists (k', v). }
    congruence.
Qed.

(** Does some node of the graph match the pattern? *)
Definition has_match (p : NodePattern) (g : Graph) : bool :=
  existsb (matches p) (nodes g).

Lemma filter_matches_nil (p : NodePattern) (ns : list Node) :
  existsb (matches p) ns = false -> filter (matches p) ns = [].
Proof.
  induction ns as [|n rest IH]; simpl; intros H; [reflexivity|].
  apply orb_false_elim in H as [Hn Hrest].
  rewrite filter_cons_False; [now apply IH|].
  rewrite Hn. exact id.
Qed.

Lemma filter_matches_cons (p : NodePattern) (ns : list Node) :
  existsb (matches p) ns = true ->
  exists m ms, filter (matches p) ns = m :: ms.
Proof.
  induction ns as [|n rest IH]; simpl; intros H; [discriminate|].
  destruct (matches p n) eqn:Hn.
  - rewrite filter_cons_True by now rewrite Hn. eauto.
  - rewrite filter_cons_False by (rewrite Hn; exact id). now apply IH.
Qed.

(** The node a pattern creates matches the pattern. *)
Lemma created_node_matches (p : NodePattern) (id : nat) :
  distinct_keys (pat_props p) = true ->
  matches p {| node_id := id;
               node_labels := match pat_label p with
                              | Some l => [l]
                              | None => []
                              end;
               node_props := pat_props p |} = true.
Proof.
  intros Hd. unfold matches. apply andb_true_intro. split.
  - destruct (pat_label p) as [l|]; [|reflexivity].
    unfold has_label. simpl. now rewrite String.eqb_refl.
  - apply forallb_forall. intros [k v] Hin. unfold has_prop. simpl.
    rewrite (prop_distinct_keys _ k v Hd Hin). apply Value_eqb_refl.
Qed.

(** The second graph has the nodes of the first, and maybe more. *)
Definition extends (g g' : Graph) : Prop :=
  exists extra, nodes g' = nodes g ++ extra.

Lemma extends_refl g : extends g g.
Proof. exists []. now rewrite app_nil_r. Qed.

Lemma extends_trans g1 g2 g3 : extends g1 g2 -> extends g2 g3 -> extends g1 g3.
Proof.
  intros [a Ha] [b Hb]. exists (a ++ b). now rewrite Hb, Ha, app_assoc.
Qed.

Lemma has_match_extends p g g' :
  extends g g' -> has_match p g = true -> has_match p g' = true.
Proof.
  intros [extra E] H. unfold has_match in *.
  now rewrite E, existsb_app, H.
Qed.

Lemma exec_row_merge_matched p row g :
  has_match p g = true ->
  exists t, exec_row (MERGE p) row g = Return (g, t) /\ t <> [].
Proof.
  intros H. destruct (filter_matches_cons p (nodes g) H) as (m & ms & E).
  cbn [exec_row]. rewrite E. eexists. split; [reflexivity | discriminate].
Qed.

Lemma exec_row_merge_result p row g g' t :
  distinct_keys (pat_props p) = true ->
  exec_row (MERGE p) row g = Return (g', t) ->
  has_match p g' = true /\ extends g g' /\ t <> [].
Proof.
  intros Hd. cbn [exec_row].
  destruct (has_match p g) eqn:M.
  - destruct (filter_matches_cons p (nodes g) M) as (m & ms & E).
    rewrite E. intros [= <- <-].
    repeat split; [exact M | apply extends_refl | discriminate].
  - rewrite (filter_matches_nil p (nodes g) M). unfold create_node.
    destruct (violates g _); cbn [bind]; [discriminate|].
    intros [= <- <-]. repeat split.
    + unfold has_match, add_node. cbn [nodes].
      rewrite existsb_app. cbn [existsb].
      now rewrite (created_node_matches p _ Hd), orb_true_r.
    + now eexists.
    + discriminate.
Qed.

Lemma exec_clause_merge_matched p t :
  forall g, has_match p g = true ->
            exists t', exec_clause (MERGE p) t g = Return (g, t').
Proof.
  induction t as [|row rest IH]; intros g H.
  - eexists; reflexivity.
  - cbn [exec_clause].
    destruct (exec_row_merge_matched p row g H) as (t1 & -> & _).
    cbn [bind]. destruct (IH g H) as (t2 & ->). cbn [bind].
    eexists; reflexivity.
Qed.

Lemma exec_clause_merge_result p t :
  distinct_keys (pat_props p) = true ->
  forall g g' t',
    exec_clause (MERGE p) t g = Return (g', t') ->
    extends g g' /\ (t <> [] -> has_match p g' = true /\ t' <> []).
Proof.
  intros Hd. induction t as [|row rest IH]; intros g g' t'.
  - cbn [exec_clause]. intros [= <- <-]. split; [apply extends_refl|].
    congruence.
  - cbn [exec_clause].
    destruct (exec_row (MERGE p) row g) as [[g1 out1]|e] eqn:E1;
      cbn [bind]; [|discriminate].
    destruct (exec_clause (MERGE p) rest g1) as [[g2 out2]|e] eqn:E2;
      cbn [bind]; [|discriminate].
    intros [= <- <-].
    destruct (exec_row_merge_result p row g g1 out1 Hd E1) as (M1 & X1 & N1).
    destruct (IH g1 g2 out2 E2) as (X2 & _).
    split; [now apply (extends_trans g g1 g2)|]. intros _. split.
    + now apply (has_match_extends p g1 g2).
    + destruct out1; [congruence | discriminate].
Qed.

Definition merge_clause (c : Clause) : bool :=
  match c with
  | MERGE p => distinct_keys (pat_props p)
  | _ => false
  end.

(** Every pattern of the body has a match in the graph. *)
Definition all_matched (body : list Clause) (g : Graph) : Prop :=
  forall p, In (MERGE p) body -> has_match p g = true.

Lemma exec_body_merge_matched body :
  forallb merge_clause body = true ->
  forall t g, all_matched body g ->
              exists t', exec_body body t g = Return (g, t').
Proof.
  induction body as [|c rest IH]; intros Hall t g Hm.
  - eexists; reflexivity.
  - cbn [forallb] in Hall. apply andb_prop in Hall as [Hc Hrest].
    destruct c as [q|r|r|q|p|a ty b]; try discriminate.
    cbn [exec_body].
    destruct (exec_clause_merge_matched p t g (Hm p (or_introl eq_refl)))
      as (t1 & ->).
    cbn [bind]. apply IH; [exact Hrest|].
    intros p' Hin. apply Hm. now right.
Qed.

Lemma exec_body_merge_result body :
  forallb merge_clause body = true ->
  forall t g g' t',
    t <> [] ->
    exec_body body t g = Return (g', t') ->
    extends g g' /\ all_matched body g'.
Proof.
  induction body as [|c rest IH]; intros Hall t g g' t' Ht.
  - cbn [exec_body]. intros [= <- <-]. split; [apply extends_refl|].
    intros p [].
  - cbn [forallb] in Hall. apply andb_prop in Hall as [Hc Hrest].
    destruct c as [q|r|r|q|p|a ty b]; try discriminate.
    cbn [exec_body].
    destruct (exec_clause (MERGE p) t g) as [[g1 t1]|e] eqn:E1;
      cbn [bind]; [|discriminate].
    intros E2.
    destruct (exec_clause_merge_result p t Hc g g1 t1 E1) as (X1 & H1).
    destruct (H1 Ht) as (M1 & N1).
    destruct (IH Hrest t1 g1 g' t' N1 E2) as (X2 & M2).
    split; [now apply (extends_trans g g1 g')|].
    intros p' [[= <-]|Hin]; [|now apply M2].
    now apply (has_match_extends p g1 g').
Qed.

End MergeFacts.

(** X5. A statement made only of [MERGE] clauses on nodes, as the
    statements of the principal characters and of the planets are, can be
    applied again without effect: on every graph, the graph after two
    applications is the graph after one.  Of the four manual statements
    these two are the only ones of that kind. *)
Theorem merge_statements_are_idempotent :
  forall (s : Statement) (g : Graph),
    merges_only s = true ->
    fst (query s (fst (query s g))) = fst (query s g).
Proof.
  intros s g Hs.
  destruct s as [body [ret|]|name x label key|name x label key];
    try discriminate.
  cbn [merges_only] in Hs. change (forallb merge_clause body = true) in Hs.
  cbn [query].
  destruct (exec_body body [[]] g) as [[g1 t1]|e] eqn:E; cbn [fst].
  - destruct (exec_body_merge_result body Hs [[]] g g1 t1
                ltac:(discriminate) E) as (_ & M).
    destruct (exec_body_merge_matched body Hs [[]] g1 M) as (t2 & ->).
    reflexivity.
  - now rewrite E.
Qed.

(** The statement of the principal characters. *)
Definition characters_statement : Statement :=
  nth 1 Builder.manual_data (Query [] None).

Lemma merge_statements_are_idempotent_witness :
  map merges_only Builder.manual_data = [false; true; true; false]
  /\ fst (query characters_statement
            (fst (query characters_statement empty_graph)))
     = fst (query characters_statement empty_graph).
Proof.
  split; [reflexivity|].
  apply (merge_statements_are_idempotent characters_statement empty_graph).
  reflexivity.
Defined.

(** ** Clearing the graph *)

Section ClearFacts.

Import Pipeline.

(** Every relationship starts and ends at a node of the graph. *)
Definition attached (g : Graph) : bool :=
  forallb (fun r => existsb (Nat.eqb (rel_start r)) (map node_id (nodes g))
                    && existsb (Nat.eqb (rel_end r)) (map node_id (nodes g)))
          (relationships g).

Definition delete_nodes (ids : list nat) (g : Graph) : Graph :=
  fold_left (fun g id => detach_delete id g) ids g.

Lemma delete_rows_nodes (ns : list Node) :
  forall g,
    delete_rows "n" (map (bind_node "n" []) ns) g
    = delete_nodes (map node_id ns) g.
Proof.
  induction ns as [|n rest IH]; intros g; [reflexivity|].
  unfold delete_rows, delete_nodes in *. cbn [map fold_left].
  rewrite <- IH. reflexivity.
Qed.

(** What is left after the deletion of the nodes [ids]: nodes with another
    identifier, and relationships that touch none of them. *)
Lemma delete_nodes_spec (ids : list nat) :
  forall g,
    (forall n, In n (nodes (delete_nodes ids g)) ->
               In n (nodes g) /\ ~ In (node_id n) ids)
    /\ (forall r, In r (relationships (delete_nodes ids g)) ->
                  In r (relationships g)
                  /\ ~ In (rel_start r) ids /\ ~ In (rel_end r) ids)
    /\ Neo4j.constraints (delete_nodes ids g) = Neo4j.constraints g
    /\ Neo4j.indexes (delete_nodes ids g) = Neo4j.indexes g.
Proof.
  induction ids as [|id rest IH]; intros g.
  - simpl. repeat split; auto.
  - change (delete_nodes (id :: rest) g)
      with (delete_nodes rest (detach_delete id g)).
    destruct (IH (detach_delete id g)) as (Hn & Hr & Hc & Hi).
    split; [|split; [|split; [exact Hc | exact Hi]]].
    + intros n Hin. destruct (Hn n Hin) as [H1 H2].
      cbn [detach_delete nodes] in H1. apply filter_In in H1 as [H1 H3].
      apply negb_true_iff, Nat.eqb_neq in H3.
      split; [exact H1|]. intros [E|E]; [congruence | contradiction].
    + intros r Hin. destruct (Hr r Hin) as (H1 & H2 & H3).
      cbn [detach_delete relationships] in H1.
      apply filter_In in H1 as [H1 H4].
      apply andb_prop in H4 as [H4 H5].
      apply negb_true_iff, Nat.eqb_neq in H4.
      apply negb_true_iff, Nat.eqb_neq in H5.
      split; [exact H1|].
      split; intros [E|E]; congruence || contradiction.
Qed.

Lemma existsb_eqb_In (x : nat) (l : list nat) :
  existsb (Nat.eqb x) l = true -> In x l.
Proof.
  intros H. apply existsb_exists in H as (y & Hy & E).
  apply Nat.eqb_eq in E. now subst.
Qed.

Lemma delete_every_node (g : Graph) :
  attached g = true ->
  nodes (delete_nodes (map node_id (nodes g)) g) = []
  /\ relationships (delete_nodes (map node_id (nodes g)) g) = [].
Proof.
  intros Hatt.
  destruct (delete_nodes_spec (map node_id (nodes g)) g) as (Hn & Hr & _).
  split.
  - destruct (nodes (delete_nodes _ g)) as [|n rest]; [reflexivity|].
    destruct (Hn n (or_introl eq_refl)) as [H1 H2].
    exfalso. apply H2. now apply in_map.
  - destruct (relationships (delete_nodes _ g)) as [|r rest]; [reflexivity|].
    destruct (Hr r (or_introl eq_refl)) as (H1 & H2 & _).
    exfalso. apply H2. unfold attached in Hatt.
    rewrite forallb_forall in Hatt. specialize (Hatt r H1).
    apply andb_prop in Hatt as [Hs _]. now apply existsb_eqb_In.
Qed.

End ClearFacts.

(** X6. [MATCH (n) DETACH DELETE n] deletes, for each node the pattern
    matches, the node and the relationships that start or end at it.  On a
    graph store whose relationships all start and end at nodes of the
    graph, [clear_existing_data] therefore leaves no node and no
    relationship, keeps the constraints and the indexes, and logs that the
    data was removed. *)
Theorem clear_existing_data_empties_the_graph :
  forall (g : Graph) (log : Log),
    attached g = true ->
    match Pipeline.clear_existing_data Pipeline.execute g log with
    | (g1, log1) =>
        nodes g1 = []
        /\ relationships g1 = []
        /\ Neo4j.constraints g1 = Neo4j.constraints g
        /\ Neo4j.indexes g1 = Neo4j.indexes g
        /\ log1 = log ++ [logger_info "🗑️ Dados existentes removidos"]
    end.
Proof.
  intros g log Hatt.
  unfold Pipeline.clear_existing_data, Pipeline.clear_statement,
    Pipeline.execute.
  rewrite node_table. cbn [Builder.any_node pat_var].
  rewrite delete_rows_nodes.
  destruct (delete_every_node g Hatt) as [Hn Hr].
  destruct (delete_nodes_spec (map node_id (nodes g)) g) as (_ & _ & Hc & Hi).
  repeat split; assumption.
Qed.

Lemma clear_existing_data_empties_the_graph_witness :
  match Pipeline.clear_existing_data Pipeline.execute manual_once [] with
  | (g1, log1) =>
      nodes g1 = []
      /\ relationships g1 = []
      /\ Neo4j.constraints g1 = Neo4j.constraints manual_once
      /\ Neo4j.indexes g1 = Neo4j.indexes manual_once
      /\ log1 = [] ++ [logger_info "🗑️ Dados existentes removidos"]
  end.
Proof.
  apply (clear_existing_data_empties_the_graph manual_once []).
  vm_compute. reflexivity.
Defined.

(** The same deletion with a narrower pattern: without its three films the
    graph of the manual facts keeps seven nodes and its three
    relationships; without its characters it keeps no relationship. *)
Example detach_delete_by_label :
  sizes manual_once = (10, 3)
  /\ sizes (fst (Pipeline.execute
                   (Pipeline.MATCH_DETACH_DELETE
                      {| pat_var := "f"; pat_label := Some "Filme";
                         pat_props := [] |}) manual_once)) = (7, 3)
  /\ sizes (fst (Pipeline.execute
                   (Pipeline.MATCH_DETACH_DELETE
                      {| pat_var := "p"; pat_label := Some "Personagem";
                         pat_props := [] |}) manual_once)) = (6, 0).
Proof. vm_compute. repeat split. Qed.

(** ** The activity of a run *)

(** What a run asks of its collaborators: a command of the connection, the
    pages of a file of the loader, the extraction of the transformer, a
    write of the graph writer. *)
Inductive Activity : Type :=
| Asked (c : Pipeline.Command)
| Opened (path : string)
| Converted (docs : list Document)
| Wrote (graph_docs : list Builder.GraphDocument).

(** A collaborator, instrumented with the list of what was asked. *)
Definition recorded {W A B : Type} (act : A -> Activity) (f : A -> Call W B)
  (a : A) : Call (W * list Activity) B :=
  fun wt =>
    match f a (fst wt) with
    | (w1, r) => ((w1, snd wt ++ [act a]), r)
    end.

Definition asked (s : Statement) : Activity := Asked (Pipeline.Run s).

(** The statements of the statistics. *)
Definition statistics : list Statement :=
  [Builder.node_counts_query; Builder.rel_counts_query; Builder.totals_query].

(** What a run may ask once the schema is set up: no deletion, and no
    statement other than the manual facts and the statistics. *)
Definition later_ok (a : Activity) : Prop :=
  match a with
  | Asked (Pipeline.Run s) => In s (Builder.manual_data ++ statistics)
  | Asked (Pipeline.MATCH_DETACH_DELETE _) => False
  | Opened _ | Converted _ | Wrote _ => True
  end.

Section RunFacts.

Import Pipeline.

Context {W : Type}.
Variable graph_query : Command -> Call W Rows.
Variable convert_to_graph_documents : list Document -> Call W (list Builder.GraphDocument).
Variable add_graph_documents : list Builder.GraphDocument -> Call W unit.
Variable path_exists : string -> W -> bool.
Variable loader_load : string -> Call W (list Document).

Local Abbreviation connection := (statement_query (recorded Asked graph_query)).
Local Abbreviation transformer := (recorded Converted convert_to_graph_documents).
Local Abbreviation writer := (recorded Wrote add_graph_documents).
Local Abbreviation loader := (recorded Opened loader_load).
Local Abbreviation file_system := (fun p (wt : W * list Activity) => path_exists p (fst wt)).

Lemma each_in_try_activity ok ko (statements : list Statement) :
  forall w (acts : list Activity) log,
    snd (fst (Builder.each_in_try connection ok ko statements (w, acts) log))
    = acts ++ map asked statements.
Proof.
  induction statements as [|s rest IH]; intros w acts log; simpl.
  - now rewrite app_nil_r.
  - unfold statement_query at 1, recorded at 1; simpl.
    destruct (graph_query (Run s) w) as [w1 [rows|e]];
      rewrite IH, <- app_assoc; reflexivity.
Qed.

Lemma create_constraints_and_indexes_activity w (acts : list Activity) log :
  snd (fst (Builder.create_constraints_and_indexes connection (w, acts) log))
  = acts ++ map asked (Builder.constraints ++ Builder.indexes).
Proof.
  unfold Builder.create_constraints_and_indexes.
  match goal with
  | |- context [Builder.each_in_try _ ?ok ?ko Builder.constraints ?st log] =>
      pose proof (each_in_try_activity ok ko Builder.constraints w acts log)
        as H;
      destruct (Builder.each_in_try connection ok ko
                  Builder.constraints st log) as [[w1 acts1] log1]
  end.
  simpl in H. subst acts1.
  rewrite each_in_try_activity, map_app. now rewrite <- app_assoc.
Qed.

Lemma clear_existing_data_activity w (acts : list Activity) log :
  snd (fst (clear_existing_data (recorded Asked graph_query) (w, acts) log))
  = acts ++ [Asked clear_statement].
Proof.
  unfold clear_existing_data, recorded. simpl.
  destruct (graph_query clear_statement w) as [w1 [rows|e]]; reflexivity.
Qed.

Lemma process_loop_activity (chunks : list Document) :
  forall n i (w : W) (acts : list Activity) t log,
    exists new,
      snd (fst (fst (Builder.process_loop transformer writer n i chunks
                       (w, acts) t log)))
      = acts ++ new
      /\ Forall later_ok new.
Proof.
  induction chunks as [|chunk rest IH]; intros n i w acts t log.
  - exists []. split; [now rewrite app_nil_r | constructor].
  - cbn [Builder.process_loop]. unfold recorded at 1. cbn [fst snd].
    destruct (convert_to_graph_documents [chunk] w) as [w1 [graph_docs|e]].
    + unfold recorded at 1. cbn [fst snd].
      destruct (add_graph_documents graph_docs w1) as [w2 [u|e]].
      * match goal with
        | |- context [Builder.process_loop _ _ n (S i) rest (?w', ?a') ?t1 ?l1] =>
            destruct (IH n (S i) w' a' t1 l1) as (new & -> & Hnew)
        end.
        exists (Converted [chunk] :: Wrote graph_docs :: new).
        split; [now rewrite <- !app_assoc|].
        repeat constructor. exact Hnew.
      * match goal with
        | |- context [Builder.process_loop _ _ n (S i) rest (?w', ?a') ?t1 ?l1] =>
            destruct (IH n (S i) w' a' t1 l1) as (new & -> & Hnew)
        end.
        exists (Converted [chunk] :: Wrote graph_docs :: new).
        split; [now rewrite <- !app_assoc|].
        repeat constructor. exact Hnew.
    + match goal with
      | |- context [Builder.process_loop _ _ n (S i) rest (?w', ?a') ?t1 ?l1] =>
          destruct (IH n (S i) w' a' t1 l1) as (new & -> & Hnew)
      end.
      exists (Converted [chunk] :: new).
      split; [now rewrite <- !app_assoc|].
      repeat constructor. exact Hnew.
Qed.

Lemma process_chunks_to_graph_activity chunks (w : W) (acts : list Activity) log :
  exists new,
    snd (fst (fst (Builder.process_chunks_to_graph transformer writer chunks
                     (w, acts) log)))
    = acts ++ new
    /\ Forall later_ok new.
Proof.
  unfold Builder.process_chunks_to_graph.
  destruct (process_loop_activity chunks (length chunks) 0 w acts
              Builder.no_totals log) as (new & H & Hnew).
  destruct (Builder.process_loop _ _ (length chunks) 0 chunks (w, acts)
              Builder.no_totals log) as [[[w1 acts1] t] log1].
  now exists new.
Qed.

Lemma load_and_process_documents_activity pdf_path log (w : W)
  (acts : list Activity) :
  exists new,
    snd (fst (fst (Builder.load_and_process_documents file_system loader
                     pdf_path (w, acts) log)))
    = acts ++ new
    /\ Forall later_ok new.
Proof.
  unfold Builder.load_and_process_documents. cbn [fst].
  destruct (path_exists pdf_path w); cbn [negb];
    [|exists []; split; [now rewrite app_nil_r | constructor]].
  unfold recorded. cbn [fst snd].
  exists [Opened pdf_path]. split; [|repeat constructor].
  destruct (loader_load pdf_path w) as [w1 [docs|e]]; [|reflexivity].
  destruct (Builder.split_documents docs); reflexivity.
Qed.

(** The statistics send a first part of their three statements. *)
Lemma validate_graph_activity (w : W) (acts : list Activity) :
  exists reads more,
    reads ++ more = statistics
    /\ snd (fst (Builder.validate_graph connection (w, acts)))
       = acts ++ map asked reads.
Proof.
  unfold Builder.validate_graph, and_then, lift, ret, statement_query,
    recorded. cbn [fst snd].
  destruct (graph_query (Run Builder.node_counts_query) w) as [w1 [rows1|e]];
    [|now exists [Builder.node_counts_query], (tl statistics)].
  destruct (Dict.comprehension "label" "count" rows1 []);
    [|now exists [Builder.node_counts_query], (tl statistics)].
  cbn [fst snd].
  destruct (graph_query (Run Builder.rel_counts_query) w1) as [w2 [rows2|e]];
    [|exists [Builder.node_counts_query; Builder.rel_counts_query],
             [Builder.totals_query];
      cbn [fst snd map]; now rewrite <- app_assoc].
  destruct (Dict.comprehension "relationship" "count" rows2 []);
    [|exists [Builder.node_counts_query; Builder.rel_counts_query],
             [Builder.totals_query];
      cbn [fst snd map]; now rewrite <- app_assoc].
  cbn [fst snd].
  exists statistics, [].
  destruct (graph_query (Run Builder.totals_query) w2) as [w3 [rows3|e]];
    [destruct (Dict.first rows3)|];
    cbn [fst snd map]; now rewrite <- !app_assoc.
Qed.

Lemma asked_later_ok (statements : list Statement) :
  (forall s, In s statements -> In s (Builder.manual_data ++ statistics)) ->
  Forall later_ok (map asked statements).
Proof.
  intros H. apply Forall_map, Forall_forall. intros s Hs.
  apply list_elem_of_In in Hs. exact (H s Hs).
Qed.

End RunFacts.

(** X7. When the file does not exist, [run_pipeline] raises the
    [FileNotFoundError] again after logging it.  By then the run has sent
    the delete statement (when [clear_existing] is set) and the eight
    schema statements, and that is all it has done: the loader is not
    called, no extraction is attempted and nothing is written to the graph,
    so the data is cleared although nothing is ingested. *)
Theorem run_pipeline_missing_file :
  forall (W : Type) (graph_query : Pipeline.Command -> Call W Rows)
         (convert_to_graph_documents :
            list Document -> Call W (list Builder.GraphDocument))
         (add_graph_documents : list Builder.GraphDocument -> Call W unit)
         (path_exists : string -> W -> bool)
         (loader_load : string -> Call W (list Document))
         (repr_dict : Dict.t -> string)
         (pdf_path : string) (clear_existing : bool) (w : W) (log : Log),
    (forall w', path_exists pdf_path w' = false) ->
    match Pipeline.run_pipeline (recorded Asked graph_query)
            (recorded Converted convert_to_graph_documents)
            (recorded Wrote add_graph_documents)
            (fun p wt => path_exists p (fst wt))
            (recorded Opened loader_load) repr_dict
            pdf_path clear_existing (w, []) log with
    | ((w', activity), log', r) =>
        r = Raise (FileNotFoundError ("Arquivo não encontrado: " +:+ pdf_path))
        /\ activity
           = (if clear_existing then [Asked Pipeline.clear_statement] else [])
             ++ map asked (Builder.constraints ++ Builder.indexes)
        /\ exists before,
            log' = before
                   ++ [Pipeline.pipeline_error
                         (FileNotFoundError
                            ("Arquivo não encontrado: " +:+ pdf_path))]
    end.
Proof.
  intros W q convert add path_exists loader repr pdf_path clear w log Hmissing.
  unfold Pipeline.run_pipeline.
  destruct clear.
  - match goal with
    | |- context [Pipeline.clear_existing_data _ ?st ?l] =>
        pose proof (clear_existing_data_activity q w [] l) as H1;
        destruct (Pipeline.clear_existing_data (recorded Asked q) st l)
          as [[w1 acts1] log1]
    end.
    simpl in H1. subst acts1.
    pose proof (create_constraints_and_indexes_activity q w1
                  [Asked Pipeline.clear_statement] log1) as H2.
    destruct (Builder.create_constraints_and_indexes _ _ log1)
      as [[w2 acts2] log2].
    cbn [fst snd] in H2. subst acts2.
    unfold Builder.load_and_process_documents. cbn [fst].
    rewrite Hmissing. cbn [negb]. repeat split. now eexists.
  - match goal with
    | |- context [Builder.create_constraints_and_indexes _ ?st ?l] =>
        pose proof (create_constraints_and_indexes_activity q w [] l) as H2;
        destruct (Builder.create_constraints_and_indexes
                    (Pipeline.statement_query (recorded Asked q)) st l)
          as [[w2 acts2] log2]
    end.
    cbn [fst snd] in H2. subst acts2.
    unfold Builder.load_and_process_documents. cbn [fst].
    rewrite Hmissing. cbn [negb]. repeat split. now eexists.
Qed.

(** A run on the graph store with a file that is not there. *)
Definition no_file (path : string) (g : Graph) : bool := false.

Definition extract_nothing (docs : list Document)
  : Call Graph (list Builder.GraphDocument) :=
  fun g => (g, Return []).

Definition write_nothing (graph_docs : list Builder.GraphDocument)
  : Call Graph unit :=
  fun g => (g, Return tt).

Definition load_nothing (path : string) : Call Graph (list Document) :=
  fun g => (g, Return []).

Definition repr_size (d : Dict.t) : string := pretty (length d).

Lemma run_pipeline_missing_file_witness :
  match Pipeline.run_pipeline (recorded Asked Pipeline.execute)
          (recorded Converted extract_nothing) (recorded Wrote write_nothing)
          (fun p wt => no_file p (fst wt)) (recorded Opened load_nothing)
          repr_size "docs/pdf.pdf" true (manual_once, []) [] with
  | ((g', activity), log', r) =>
      r = Raise (FileNotFoundError ("Arquivo não encontrado: " +:+ "docs/pdf.pdf"))
      /\ activity
         = [Asked Pipeline.clear_statement]
           ++ map asked (Builder.constraints ++ Builder.indexes)
      /\ exists before,
          log' = before
                 ++ [Pipeline.pipeline_error
                       (FileNotFoundError
                          ("Arquivo não encontrado: " +:+ "docs/pdf.pdf"))]
  end.
Proof.
  exact (run_pipeline_missing_file Graph Pipeline.execute extract_nothing
           write_nothing no_file load_nothing repr_size "docs/pdf.pdf" true
           manual_once [] (fun _ => eq_refl)).
Defined.

(** The store after that run: the ten nodes of the manual facts are gone. *)
Example run_pipeline_missing_file_clears_the_store :
  match Pipeline.run_pipeline Pipeline.execute extract_nothing write_nothing
          no_file load_nothing repr_size "docs/pdf.pdf" true manual_once [] with
  | (g', _, r) =>
      sizes manual_once = (10, 3) /\ sizes g' = (0, 0)
      /\ r = Raise (FileNotFoundError "Arquivo não encontrado: docs/pdf.pdf")
  end.
Proof. vm_compute. repeat split. Qed.

(** X8. Whatever the collaborators answer, [run_pipeline] sends the delete
    statement only when [clear_existing] is set, once, and before anything
    else; the eight schema statements follow; and whatever the run asks
    after them is never a deletion: every statement it still sends is one
    of the manual facts or of the statistics.  With [clear_existing] unset
    the run deletes nothing. *)
Theorem run_pipeline_deletes_only_on_request :
  forall (W : Type) (graph_query : Pipeline.Command -> Call W Rows)
         (convert_to_graph_documents :
            list Document -> Call W (list Builder.GraphDocument))
         (add_graph_documents : list Builder.GraphDocument -> Call W unit)
         (path_exists : string -> W -> bool)
         (loader_load : string -> Call W (list Document))
         (repr_dict : Dict.t -> string)
         (pdf_path : string) (clear_existing : bool) (w : W) (log : Log),
    exists later,
      snd (fst (fst (Pipeline.run_pipeline (recorded Asked graph_query)
                       (recorded Converted convert_to_graph_documents)
                       (recorded Wrote add_graph_documents)
                       (fun p wt => path_exists p (fst wt))
                       (recorded Opened loader_load) repr_dict
                       pdf_path clear_existing (w, []) log)))
      = (if clear_existing then [Asked Pipeline.clear_statement] else [])
        ++ map asked (Builder.constraints ++ Builder.indexes)
        ++ later
      /\ Forall later_ok later.
Proof.
  intros W q convert add path_exists loader repr pdf_path clear w log.
  unfold Pipeline.run_pipeline.
  set (log0 := log ++ [logger_info _]).
  assert (H1 : exists w1 log1,
             (if clear
              then Pipeline.clear_existing_data (recorded Asked q) (w, []) log0
              else ((w, []), log0))
             = ((w1, if clear then [Asked Pipeline.clear_statement] else []),
                log1)).
  { destruct clear; [|now eexists _, _].
    pose proof (clear_existing_data_activity q w [] log0) as H.
    destruct (Pipeline.clear_existing_data _ _ log0) as [[w1 acts1] log1].
    cbn [fst snd app] in H. subst. now eexists _, _. }
  destruct H1 as (w1 & log1 & ->).
  set (first := if clear then [Asked Pipeline.clear_statement] else []).
  pose proof (create_constraints_and_indexes_activity q w1 first log1) as H2.
  destruct (Builder.create_constraints_and_indexes _ _ log1)
    as [[w2 acts2] log2].
  cbn [fst snd] in H2. subst acts2.
  set (schema := Builder.constraints ++ Builder.indexes).
  destruct (load_and_process_documents_activity path_exists loader pdf_path
              log2 w2 (first ++ map asked schema)) as (new3 & H3 & L3).
  destruct (Builder.load_and_process_documents _ _ pdf_path _ log2)
    as [[[w3 acts3] log3] [chunks|e]]; cbn [fst snd] in H3; subst acts3;
    [|exists new3; cbn [fst snd]; split; [now rewrite <- app_assoc | exact L3]].
  destruct (process_chunks_to_graph_activity convert add chunks w3
              ((first ++ map asked schema) ++ new3) log3)
    as (new4 & H4 & L4).
  destruct (Builder.process_chunks_to_graph _ _ chunks _ log3)
    as [[[w4 acts4] total] log4]. cbn [fst snd] in H4. subst acts4.
  unfold Builder.add_manual_knowledge.
  match goal with
  | |- context [Builder.each_in_try _ ?ok ?ko Builder.manual_data ?st log4] =>
      pose proof (each_in_try_activity q ok ko Builder.manual_data w4
                    (((first ++ map asked schema) ++ new3) ++ new4) log4)
        as H5;
      destruct (Builder.each_in_try
                  (Pipeline.statement_query (recorded Asked q)) ok ko
                  Builder.manual_data st log4) as [[w5 acts5] log5] eqn:E5
  end.
  clear E5. cbn [fst snd] in H5. subst acts5.
  destruct (validate_graph_activity q w5
              ((((first ++ map asked schema) ++ new3) ++ new4)
               ++ map asked Builder.manual_data))
    as (reads & more & Hreads & H6).
  assert (Hlater : Forall later_ok
                     (new3 ++ new4 ++ map asked Builder.manual_data
                      ++ map asked reads)).
  { apply Forall_app. split; [exact L3|].
    apply Forall_app. split; [exact L4|].
    apply Forall_app. split; apply asked_later_ok; intros s Hs.
    - apply in_or_app. now left.
    - apply in_or_app. right. rewrite <- Hreads. apply in_or_app. now left. }
  exists (new3 ++ new4 ++ map asked Builder.manual_data ++ map asked reads).
  split; [|exact Hlater].
  destruct (Builder.validate_graph _ _) as [[w6 acts6] [stats|e]];
    cbn [fst snd] in H6; subst acts6;
    [destruct (Pipeline.log_statistics repr stats log5) as [log6 [u|e]]|];
    cbn [fst snd]; now rewrite <- !app_assoc.
Qed.

(** ** Construction *)

(** X9. The constructor checks the environment first: when a required
    variable is absent or empty it raises the [ValueError] that names the
    first such variable, before the LLM client is built and before any
    connection is attempted; the state of the world and the log are
    untouched. *)
Theorem init_fails_fast_on_missing_variable :
  forall (W LLM Conn Tool : Type) (chat_openai : Call W LLM)
         (neo4j_graph : string -> string -> string -> Call W Conn)
         (make_tool : LLM -> Conn -> Call W Tool)
         (env : Env.environ) (w : W) (log : Log) (var : string),
    find (Env.missing env) Env.required_vars = Some var ->
    Startup.init chat_openai neo4j_graph make_tool env w log
    = (w, log,
       Raise (ValueError ("Variável de ambiente " +:+ var +:+ " não encontrada"))).
Proof.
  intros W LLM Conn Tool chat_openai neo4j_graph make_tool env w log var H.
  unfold Startup.init, Env.setup_environment.
  rewrite setup_environment_loop_find, H. reflexivity.
Qed.

(** Collaborators that record their calls. *)
Definition recording_llm : Call (list string) unit :=
  fun w => (w ++ ["ChatOpenAI"], Return tt).

Definition recording_connect (url username password : string)
  : Call (list string) string :=
  fun w => (w ++ ["Neo4jGraph " +:+ url +:+ " " +:+ username], Return url).

Definition refusing_connect (url username password : string)
  : Call (list string) string :=
  fun w => (w ++ ["Neo4jGraph " +:+ url +:+ " " +:+ username],
            Raise (ExternalError "ServiceUnavailable")).

Definition recording_tool (llm : unit) (graph : string)
  : Call (list string) unit :=
  fun w => (w ++ ["LLMGraphTransformer"], Return tt).

Lemma init_fails_fast_on_missing_variable_witness :
  Startup.init recording_llm recording_connect recording_tool
    env_without_uri [] []
  = ([], [], Raise (ValueError "Variável de ambiente NEO4J_URI não encontrada")).
Proof.
  exact (init_fails_fast_on_missing_variable (list string) unit string unit
           recording_llm recording_connect recording_tool env_without_uri
           [] [] "NEO4J_URI" eq_refl).
Defined.

(** X10. With a complete environment the connection is opened with the
    URI, user name and password of the environment; when it fails, the
    constructor logs the error and raises the same exception, and the
    transformer or chain is not built. *)
Theorem init_raises_the_connection_error :
  forall (W LLM Conn Tool : Type) (chat_openai : Call W LLM)
         (neo4j_graph : string -> string -> string -> Call W Conn)
         (make_tool : LLM -> Conn -> Call W Tool)
         (env : Env.environ) (w w1 w2 : W) (log : Log) (llm : LLM)
         (url username password : string) (e : Exception),
    find (Env.missing env) Env.required_vars = None ->
    env !! "NEO4J_URI" = Some url ->
    env !! "NEO4J_USERNAME" = Some username ->
    env !! "NEO4J_PASSWORD" = Some password ->
    chat_openai w = (w1, Return llm) ->
    neo4j_graph url username password w1 = (w2, Raise e) ->
    Startup.init chat_openai neo4j_graph make_tool env w log
    = (w2,
       log ++ [logger_error ("❌ Erro ao conectar com Neo4j: " +:+ str e)],
       Raise e).
Proof.
  intros W LLM Conn Tool chat_openai neo4j_graph make_tool env w w1 w2 log llm
    url username password e Henv Hurl Huser Hpass Hllm Hconn.
  unfold Startup.init, Env.setup_environment.
  rewrite setup_environment_loop_find, Henv, Hllm.
  unfold Startup.setup_neo4j_connection, Startup.environ_getitem.
  rewrite Hurl, Huser, Hpass, Hconn. reflexivity.
Qed.

Lemma init_raises_the_connection_error_witness :
  Startup.init recording_llm refusing_connect recording_tool env_complete [] []
  = (["ChatOpenAI"; "Neo4jGraph bolt://localhost:7687 neo4j"],
     [logger_error "❌ Erro ao conectar com Neo4j: ServiceUnavailable"],
     Raise (ExternalError "ServiceUnavailable")).
Proof.
  exact (init_raises_the_connection_error (list string) unit string unit
           recording_llm refusing_connect recording_tool env_complete
           [] ["ChatOpenAI"]
           ["ChatOpenAI"; "Neo4jGraph bolt://localhost:7687 neo4j"] [] tt
           "bolt://localhost:7687" "neo4j" "secret"
           (ExternalError "ServiceUnavailable")
           eq_refl eq_refl eq_refl eq_refl eq_refl eq_refl).
Defined.

(** ** The harnesses on a chain that is down *)

Section HarnessFacts.

Import Harness.

Context {W : Type}.
Variable qa_chain_invoke : string -> Call W QA.Response.
Variable callback : W -> W -> QA.Callback.
Variable lower : string -> string.
Variable len : string -> nat.

(** The chain raises [e] on every question, in every state. *)
Variable e : Exception.
Hypothesis chain_down : forall q w, snd (qa_chain_invoke q w) = Raise e.

Lemma ask_degraded q w :
  exists w',
    ask qa_chain_invoke callback q w = (w', Return (QA.degraded q e)).
Proof.
  pose proof (chain_down q w) as H.
  destruct (qa_chain_invoke q w) as [w1 r] eqn:E. simpl in H. subst r.
  exists w1. unfold ask. now apply ask_with_context_raise.
Qed.

Lemma validation_loop_degraded (questions : list string) :
  forall acc w,
    exists w',
      validation_loop qa_chain_invoke callback lower len questions acc w
      = (w', Return (acc ++ map (fun q => validation_result lower len q
                                             (QA.degraded q e)) questions)).
Proof.
  induction questions as [|q rest IH]; intros acc w.
  - exists w. simpl. now rewrite app_nil_r.
  - cbn [validation_loop]. unfold and_then.
    destruct (ask_degraded q w) as [w1 ->].
    destruct (IH (acc ++ [validation_result lower len q (QA.degraded q e)]) w1)
      as [w2 ->].
    exists w2. cbn [map]. now rewrite <- app_assoc.
Qed.

Lemma cases_loop_degraded (questions : list string) :
  forall acc w,
    exists w',
      cases_loop qa_chain_invoke callback lower questions acc w
      = (w', Return (acc ++ map (fun q => case_result lower q
                                             (QA.degraded q e)) questions)).
Proof.
  induction questions as [|q rest IH]; intros acc w.
  - exists w. simpl. now rewrite app_nil_r.
  - cbn [cases_loop]. unfold and_then.
    destruct (ask_degraded q w) as [w1 ->].
    destruct (IH (acc ++ [case_result lower q (QA.degraded q e)]) w1)
      as [w2 ->].
    exists w2. cbn [map]. now rewrite <- app_assoc.
Qed.

End HarnessFacts.

(** X11. When the chain raises on every question, [validate_knowledge_base]
    still returns: it counts the six error answers as answered and reports a
    success rate of 100, unless the lower-cased error text contains
    ["não encontrado"]; no result has a generated query or tokens. *)
Theorem validate_knowledge_base_counts_errors_as_answers :
  forall (W : Type) (qa_chain_invoke : string -> Call W QA.Response)
         (callback : W -> W -> QA.Callback)
         (lower : string -> string) (len : string -> nat)
         (e : Exception) (w : W),
    (forall q w', snd (qa_chain_invoke q w') = Raise e) ->
    Harness.contains "não encontrado"
      (lower ("Erro ao processar pergunta: " +:+ str e)) = false ->
    exists w' v,
      Harness.validate_knowledge_base qa_chain_invoke callback lower len w
      = (w', Return v)
      /\ Harness.total_questions v = 6
      /\ Harness.answered_questions v = 6
      /\ Harness.success_rate v = 100%float
      /\ map Harness.vr_question (Harness.results v) = Harness.test_questions
      /\ Forall (fun r => Harness.vr_has_answer r = true
                          /\ Harness.vr_cypher_generated r = false
                          /\ Harness.vr_tokens_used r = 0)
                (Harness.results v).
Proof.
  intros W invoke callback lower len e w Hdown Hphrase.
  unfold Harness.validate_knowledge_base, and_then, ret.
  destruct (validation_loop_degraded invoke callback lower len e Hdown
              Harness.test_questions [] w) as [w' ->].
  exists w'. eexists. split; [reflexivity|].
  cbn [app map Harness.test_questions Harness.total_questions
       Harness.answered_questions Harness.success_rate Harness.results].
  unfold Harness.validation_result, QA.degraded.
  cbn [QA.answer QA.cypher_query QA.tokens_used].
  rewrite Hphrase.
  change (Harness.nonempty ("Erro ao processar pergunta: " +:+ str e))
    with true.
  change (Harness.nonempty "") with false. cbn [andb negb].
  repeat split; repeat constructor; auto.
Qed.

(** An ASCII [lower], enough for texts without upper-case letters outside
    ASCII. *)
Definition ascii_lower (s : string) : string :=
  string_of_list_ascii
    (map (fun c => let n := nat_of_ascii c in
                   if Nat.leb 65 n && Nat.leb n 90
                   then ascii_of_nat (n + 32) else c)
         (list_ascii_of_string s)).

Lemma validate_knowledge_base_counts_errors_as_answers_witness :
  exists w' v,
    Harness.validate_knowledge_base invoke_refused no_usage ascii_lower
      String.length tt = (w', Return v)
    /\ Harness.total_questions v = 6
    /\ Harness.answered_questions v = 6
    /\ Harness.success_rate v = 100%float
    /\ map Harness.vr_question (Harness.results v) = Harness.test_questions
    /\ Forall (fun r => Harness.vr_has_answer r = true
                        /\ Harness.vr_cypher_generated r = false
                        /\ Harness.vr_tokens_used r = 0)
              (Harness.results v).
Proof.
  exact (validate_knowledge_base_counts_errors_as_answers unit invoke_refused
           no_usage ascii_lower String.length
           (ExternalError "RateLimitError") tt
           (fun _ _ => eq_refl) eq_refl).
Defined.

(** X12. When the chain raises on every question,
    [demonstrate_anti_hallucination] judges the three error answers by the
    same substring test as any answer: the rate is 100 when the lower-cased
    error text contains one of the seven phrases and 0 otherwise, and every
    result carries the error text. *)
Theorem demonstrate_anti_hallucination_judges_error_text :
  forall (W : Type) (qa_chain_invoke : string -> Call W QA.Response)
         (callback : W -> W -> QA.Callback)
         (lower : string -> string) (e : Exception) (w : W),
    (forall q w', snd (qa_chain_invoke q w') = Raise e) ->
    let answer := "Erro ao processar pergunta: " +:+ str e in
    let declines :=
      existsb (fun phrase => Harness.contains phrase (lower answer))
        Harness.no_data_phrases in
    exists w' a,
      Harness.demonstrate_anti_hallucination qa_chain_invoke callback lower w
      = (w', Return a)
      /\ map Harness.cr_question (Harness.ah_test_cases a) = Harness.test_cases
      /\ Forall (fun r => Harness.cr_answer r = answer
                          /\ Harness.cr_indicates_no_data r = declines
                          /\ Harness.cr_prevents_hallucination r = declines)
                (Harness.ah_test_cases a)
      /\ Harness.anti_hallucination_rate a
         = (if declines then 100 else 0)%float.
Proof.
  intros W invoke callback lower e w Hdown answer declines.
  unfold Harness.demonstrate_anti_hallucination, and_then, ret.
  destruct (cases_loop_degraded invoke callback lower e Hdown
              Harness.test_cases [] w) as [w' ->].
  exists w'. eexists. split; [reflexivity|].
  cbn [app map Harness.test_cases Harness.ah_test_cases
       Harness.anti_hallucination_rate].
  unfold Harness.case_result, QA.degraded. cbn [QA.answer].
  fold answer. fold declines.
  destruct declines; repeat split; repeat constructor; auto.
Qed.

Definition invoke_unreachable (q : string) : Call unit QA.Response :=
  fun w => (w, Raise (ExternalError "não foi possível conectar")).

Lemma demonstrate_anti_hallucination_judges_error_text_witness :
  exists w' a,
    Harness.demonstrate_anti_hallucination invoke_unreachable no_usage
      ascii_lower tt = (w', Return a)
    /\ map Harness.cr_question (Harness.ah_test_cases a) = Harness.test_cases
    /\ Forall (fun r =>
                 Harness.cr_answer r
                 = "Erro ao processar pergunta: não foi possível conectar"
                 /\ Harness.cr_indicates_no_data r = true
                 /\ Harness.cr_prevents_hallucination r = true)
              (Harness.ah_test_cases a)
    /\ Harness.anti_hallucination_rate a = 100%float.
Proof.
  exact (demonstrate_anti_hallucination_judges_error_text unit
           invoke_unreachable no_usage ascii_lower
           (ExternalError "não foi possível conectar") tt
           (fun _ _ => eq_refl)).
Defined.

(** ** What the grouped counts add up to *)

Section GroupFacts.

Lemma Cell_eqb_eq (a b : Cell) : Cell_eqb a b = true <-> a = b.
Proof.
  destruct a, b; simpl; split; intros H;
    try discriminate; try reflexivity;
    try (apply Z.eqb_eq in H; congruence);
    try (apply String.eqb_eq in H; congruence);
    injection H as ->; first [apply Z.eqb_refl | apply String.eqb_refl].
Qed.

Definition counted (l : list (Cell * nat)) : nat := list_sum (map snd l).

Lemma bump_counted k inc acc : counted (bump k inc acc) = counted acc + inc.
Proof.
  unfold counted. induction acc as [|[k' c] rest IH]; simpl; [lia|].
  destruct (Cell_eqb k k'); simpl; lia.
Qed.

Lemma bump_keys_in k inc acc x :
  In x (map fst (bump k inc acc)) -> x = k \/ In x (map fst acc).
Proof.
  induction acc as [|[k' c] rest IH]; simpl.
  - intros [<-|[]]. now left.
  - destruct (Cell_eqb k k'); simpl; intros [<-|H]; auto.
    destruct (IH H); auto.
Qed.

Lemma bump_keys_nodup k inc acc :
  List.NoDup (map fst acc) -> List.NoDup (map fst (bump k inc acc)).
Proof.
  induction acc as [|[k' c] rest IH]; simpl; intros Hnd.
  - constructor; [intros [] | constructor].
  - inversion Hnd as [|? ? Hfresh Hrest]; subst.
    destruct (Cell_eqb k k') eqn:E; simpl.
    + now constructor.
    + constructor; [|now apply IH].
      intros Hin. destruct (bump_keys_in k inc rest k' Hin) as [->|Hin'].
      * assert (Cell_eqb k k = true) by now apply Cell_eqb_eq.
        congruence.
      * now apply Hfresh.
Qed.

Local Abbreviation tally key v g :=
  (fun acc row => bump (group_key key g row) (counts v row) acc).

Lemma tally_counted key v g t acc :
  counted (fold_left (tally key v g) t acc) = counted acc + count_rows v t.
Proof.
  revert acc. unfold count_rows.
  induction t as [|row rest IH]; intros acc; simpl; [lia|].
  rewrite IH, bump_counted. lia.
Qed.

Lemma tally_nodup key v g t acc :
  List.NoDup (map fst acc) ->
  List.NoDup (map fst (fold_left (tally key v g) t acc)).
Proof.
  revert acc. induction t as [|row rest IH]; intros acc H; simpl; [exact H|].
  apply IH. now apply bump_keys_nodup.
Qed.

Lemma bump_positive k inc acc :
  1 <= inc ->
  Forall (fun kc => 1 <= snd kc) acc ->
  Forall (fun kc => 1 <= snd kc) (bump k inc acc).
Proof.
  intros Hinc. induction acc as [|[k' c] rest IH]; simpl; intros H.
  - repeat constructor. exact Hinc.
  - inversion H as [|? ? Hc Hrest]; subst. simpl in Hc.
    destruct (Cell_eqb k k'); constructor; simpl; auto; lia.
Qed.

Lemma tally_positive key v g t acc :
  Forall (fun row => counts v row = 1) t ->
  Forall (fun kc => 1 <= snd kc) acc ->
  Forall (fun kc => 1 <= snd kc) (fold_left (tally key v g) t acc).
Proof.
  revert acc. induction t as [|row rest IH]; intros acc Ht H; simpl;
    [exact H|].
  inversion Ht as [|? ? Hrow Hrest]; subst.
  apply IH; [exact Hrest|]. apply bump_positive; [lia|exact H].
Qed.

Lemma count_rows_all v t :
  Forall (fun row => counts v row = 1) t -> count_rows v t = length t.
Proof.
  unfold count_rows. induction 1 as [|row rest Hrow _ IH]; simpl; [reflexivity|].
  now rewrite Hrow, IH.
Qed.

Lemma insert_desc_perm x l : Permutation (insert_desc x l) (x :: l).
Proof.
  induction l as [|y rest IH]; simpl; [reflexivity|].
  destruct (Nat.leb (snd y) (snd x)); [reflexivity|].
  rewrite IH. apply perm_swap.
Qed.

Lemma order_by_count_desc_perm l : Permutation (order_by_count_desc l) l.
Proof.
  unfold order_by_count_desc.
  induction l as [|x rest IH]; simpl; [reflexivity|].
  rewrite insert_desc_perm. now constructor.
Qed.

Lemma counted_perm l l' : Permutation l l' -> counted l = counted l'.
Proof.
  unfold counted. induction 1; simpl; lia.
Qed.

(** The dict of a list of groups. *)
Definition as_dict (groups : list (Cell * nat)) : Dict.t :=
  map (fun kc => (fst kc, CInt (Z.of_nat (snd kc)))) groups.

Lemma setitem_fresh k v d :
  ~ In k (map fst d) -> Dict.setitem k v d = d ++ [(k, v)].
Proof.
  induction d as [|[k' v'] rest IH]; simpl; intros H; [reflexivity|].
  destruct (Cell_eqb k k') eqn:E.
  - apply Cell_eqb_eq in E. exfalso. apply H. now left.
  - rewrite IH; [reflexivity|]. intros Hin. apply H. now right.
Qed.

(** Rows with distinct keys all reach the dict, in their order. *)
Lemma comprehension_groups k c groups :
  String.eqb c k = false ->
  forall d,
    List.NoDup (map fst d ++ map fst groups) ->
    Dict.comprehension k c
      (map (fun kc => [(k, fst kc); (c, CInt (Z.of_nat (snd kc)))]) groups) d
    = Return (d ++ as_dict groups).
Proof.
  intros Hck.
  induction groups as [|[key n] rest IH]; intros d Hnd; simpl.
  - now rewrite app_nil_r.
  - rewrite String.eqb_refl. cbn [Py.bind]. rewrite Hck, String.eqb_refl.
    cbn [Py.bind]. simpl in Hnd.
    rewrite setitem_fresh.
    + rewrite IH.
      * now rewrite <- app_assoc.
      * rewrite map_app. simpl. rewrite <- app_assoc. exact Hnd.
    + apply NoDup_remove_2 in Hnd. intros Hin. apply Hnd.
      apply in_or_app. now left.
Qed.

(** What a mapping of counts is: one integer per key, no key twice, no
    count below one, [total] for the sum. *)
Definition tallies (d : Dict.t) (total : nat) : Prop :=
  exists groups,
    d = as_dict groups
    /\ List.NoDup (map fst groups)
    /\ Forall (fun kc => 1 <= snd kc) groups
    /\ counted groups = total.

Lemma project_tallies key k v c g t :
  String.eqb c k = false ->
  Forall (fun row => counts v row = 1) t ->
  exists d,
    Dict.comprehension k c
      (project (Some (RETURN_GROUP_COUNT key k v c)) g t) [] = Return d
    /\ tallies d (length t).
Proof.
  intros Hck Ht. unfold project.
  pose proof (order_by_count_desc_perm (group_count key v g t)) as P.
  assert (Hnd : List.NoDup (map fst (group_count key v g t)))
    by (apply tally_nodup; constructor).
  exists (as_dict (order_by_count_desc (group_count key v g t))). split.
  - rewrite comprehension_groups; [reflexivity|exact Hck|].
    simpl. eapply Permutation_NoDup; [|exact Hnd].
    apply Permutation_map. now symmetry.
  - eexists. split; [reflexivity|]. split; [|split].
    + eapply Permutation_NoDup; [|exact Hnd].
      apply Permutation_map. now symmetry.
    + eapply Permutation_Forall; [symmetry; exact P|].
      apply tally_positive; [exact Ht|constructor].
    + rewrite (counted_perm _ _ P). unfold group_count.
      rewrite tally_counted. simpl. now apply count_rows_all.
Qed.

Lemma node_rows_counted (ns : list Node) :
  Forall (fun row => counts "n" row = 1) (map (bind_node "n" []) ns).
Proof. induction ns; constructor; auto. Qed.

Lemma rel_rows_counted (rs : list Relationship) :
  Forall (fun row => counts "r" row = 1) (map (bind_rel "r" []) rs).
Proof. induction rs; constructor; auto. Qed.

End GroupFacts.

(** X13. On every graph the two mappings of [validate_graph] (main.py) and
    of [get_graph_stats] (qa.py) are the same, and nothing is lost between
    the grouped query and the dict built from its rows: each mapping holds
    one integer count per key, no key twice and no count below one; the
    counts per first label add up to the number of nodes, and the counts per
    relationship type to the number of relationships. *)
Theorem statistics_counts_add_up (g : Graph) :
  exists stats gstats,
    Builder.validate_graph query g = (g, Return stats)
    /\ QA.get_graph_stats query g = (g, Return gstats)
    /\ QA.stats_nodes gstats = Builder.node_counts stats
    /\ QA.stats_relationships gstats = Builder.relationship_counts stats
    /\ tallies (Builder.node_counts stats) (length (nodes g))
    /\ tallies (Builder.relationship_counts stats)
               (length (relationships g)).
Proof.
  destruct (project_tallies (FirstLabel "n") "label" "n" "count" g
              (map (bind_node "n" []) (nodes g)) eq_refl
              (node_rows_counted (nodes g))) as (d1 & D1 & T1).
  destruct (project_tallies (TypeOf "r") "relationship" "r" "count" g
              (map (bind_rel "r" []) (relationships g)) eq_refl
              (rel_rows_counted (relationships g))) as (d2 & D2 & T2).
  rewrite length_map in T1, T2.
  destruct (query_counts [MATCH (Builder.any_node "n"); OPTIONAL_MATCH_REL "r"]
              "n" "total_nodes" "r" "total_relationships" g eq_refl)
    as (row & E3).
  exists {| Builder.node_counts := d1; Builder.relationship_counts := d2;
            Builder.totals := row |},
         {| QA.stats_nodes := d1; QA.stats_relationships := d2 |}.
  assert (E1 : query Builder.node_counts_query g
               = (g, Return (project (Some (RETURN_GROUP_COUNT (FirstLabel "n")
                                              "label" "n" "count")) g
                               (map (bind_node "n" []) (nodes g)))))
    by (unfold Builder.node_counts_query, query; now rewrite node_table).
  assert (E2 : query Builder.rel_counts_query g
               = (g, Return (project (Some (RETURN_GROUP_COUNT (TypeOf "r")
                                              "relationship" "r" "count")) g
                               (map (bind_rel "r" []) (relationships g)))))
    by (unfold Builder.rel_counts_query, query; now rewrite rel_table).
  split; [|split; [|repeat split; assumption]].
  - unfold Builder.validate_graph, and_then, lift, ret.
    rewrite E1, D1, E2, D2.
    unfold Builder.totals_query. rewrite E3. reflexivity.
  - unfold QA.get_graph_stats, and_then, lift, ret.
    rewrite E1, D1, E2, D2. reflexivity.
Qed.

(** ** Chunks are stripped and never empty *)

Section TrimFacts.

Import Splitter.

Context {char : Type} `{EqDecision char}.
Variable isspace : char -> bool.
Variable chunk_size chunk_overlap : Z.
Variable separator : list char.

(** A text that is not empty and has no white space at either end. *)
Definition trimmed (s : list char) : bool :=
  match s with
  | [] => false
  | c :: _ => negb (isspace c) && negb (isspace (List.last s c))
  end.

Lemma lstrip_head (s : list char) c r :
  lstrip isspace s = c :: r -> isspace c = false.
Proof.
  induction s as [|a s IH]; simpl; [discriminate|].
  destruct (isspace a) eqn:E; [exact IH|].
  intros [= <- _]. exact E.
Qed.

Lemma lstrip_last (s : list char) d :
  lstrip isspace s <> [] -> List.last (lstrip isspace s) d = List.last s d.
Proof.
  induction s as [|a s IH]; [reflexivity|].
  cbn [lstrip]. destruct (isspace a); [|reflexivity].
  intros Hne. rewrite (IH Hne).
  destruct s as [|b s]; [now elim Hne|reflexivity].
Qed.

Lemma last_rev_cons (a : char) (l : list char) d :
  List.last (rev (a :: l)) d = a.
Proof. simpl. apply last_last. Qed.

Lemma strip_trimmed (s : list char) c r :
  strip isspace s = c :: r -> trimmed (c :: r) = true.
Proof.
  unfold strip. intros E.
  destruct (lstrip isspace (rev (lstrip isspace s))) as [|x b] eqn:B;
    [discriminate|].
  pose proof (lstrip_head _ _ _ B) as Hx.
  assert (Hlast : List.last (c :: r) c = x)
    by (rewrite <- E; apply last_rev_cons).
  assert (Hc : List.last (x :: b) c = c).
  { rewrite <- (rev_involutive (x :: b)), E. apply last_rev_cons. }
  rewrite <- B in Hc. rewrite lstrip_last in Hc by (rewrite B; discriminate).
  destruct (lstrip isspace s) as [|y a] eqn:A.
  - simpl in B. discriminate B.
  - rewrite last_rev_cons in Hc. subst y.
    pose proof (lstrip_head _ _ _ A) as Hy.
    unfold trimmed. now rewrite Hlast, Hx, Hy.
Qed.

Lemma emit_trimmed docs current_doc :
  Forall (fun c => trimmed c = true) docs ->
  Forall (fun c => trimmed c = true) (emit isspace separator docs current_doc).
Proof.
  intros Hdocs. unfold emit, join_docs.
  destruct (strip isspace (join separator current_doc)) as [|c r] eqn:E;
    [exact Hdocs|].
  apply Forall_app. split; [exact Hdocs|].
  constructor; [|constructor]. exact (strip_trimmed _ _ _ E).
Qed.

Lemma merge_loop_trimmed splits :
  forall docs current_doc total out,
    Forall (fun c => trimmed c = true) docs ->
    merge_loop isspace chunk_size chunk_overlap separator splits docs
      current_doc total = Return out ->
    Forall (fun c => trimmed c = true) out.
Proof.
  induction splits as [|d rest IH]; intros docs current_doc total out Hdocs.
  - cbn [merge_loop]. intros [= <-]. now apply emit_trimmed.
  - cbn [merge_loop].
    destruct (too_long chunk_size separator total (len d) current_doc);
      [destruct (Nat.ltb 0 (length current_doc));
       [destruct (pop_front chunk_size chunk_overlap separator (len d)
                    current_doc total) as [[cd tot]|e]|]|];
      cbn [bind]; try discriminate; apply IH; auto using emit_trimmed.
Qed.

Lemma split_text_trimmed (text : list char) chunks :
  split_text isspace chunk_size chunk_overlap separator text = Return chunks ->
  Forall (fun c => trimmed c = true) chunks.
Proof.
  unfold split_text, merge_splits. apply merge_loop_trimmed. constructor.
Qed.

End TrimFacts.

(** A chunk text that is not empty and neither starts nor ends with a
    white-space character ([str.isspace]). *)
Definition stripped (s : Text) : bool := trimmed Builder.isspace s.

Lemma split_documents_stripped (docs : list Document) :
  forall chunks,
    Builder.split_documents docs = Return chunks ->
    Forall (fun c => stripped (page_content c) = true) chunks.
Proof.
  induction docs as [|doc rest IH]; intros chunks; cbn [Builder.split_documents].
  - intros [= <-]. constructor.
  - destruct (Builder.split_text (page_content doc)) as [texts|e] eqn:E;
      cbn [bind]; [|discriminate].
    destruct (Builder.split_documents rest) as [more|e]; cbn [bind];
      [|discriminate].
    intros [= <-]. apply Forall_app. split; [|now apply IH].
    apply Forall_map.
    eapply Forall_impl; [exact (split_text_trimmed _ _ _ _ _ _ E)|].
    intros l Hl. exact Hl.
Qed.

(** X14. When the file exists and the loader returns its pages,
    [load_and_process_documents] returns chunks none of which is empty and
    none of which starts or ends with a white-space character. *)
Theorem load_and_process_documents_chunks_are_stripped :
  forall (W : Type) (path_exists : string -> W -> bool)
         (loader_load : string -> Call W (list Document))
         (pdf_path : string) (log : Log) (w w1 : W) (docs : list Document),
    path_exists pdf_path w = true ->
    loader_load pdf_path w = (w1, Return docs) ->
    exists chunks log',
      Builder.load_and_process_documents path_exists loader_load
        pdf_path w log = (w1, log', Return chunks)
      /\ Forall (fun c => stripped (page_content c) = true) chunks.
Proof.
  intros W path_exists loader_load pdf_path log w w1 docs Hexists Hload.
  unfold Builder.load_and_process_documents. rewrite Hexists. cbn [negb].
  rewrite Hload.
  destruct (split_documents_spec docs) as (chunks & E & _).
  rewrite E. eexists _, _. split; [reflexivity|].
  now apply (split_documents_stripped docs).
Qed.

(** A page whose paragraphs are padded with blanks, wide spaces and line
    breaks, and whose last paragraph ends in an accented letter. *)
Definition padded_page : Text :=
  text "  Luke Skywalker nasceu em Tatooine. "
  ++ Builder.separator
  ++ [32; 12288; 32]%N
  ++ Builder.separator
  ++ text "Leia Organa nasceu em Alderaã" ++ [160; 10]%N.

Lemma load_and_process_documents_chunks_are_stripped_witness :
  exists chunks log',
    Builder.load_and_process_documents always_exists
      (load_page padded_page) "docs/pdf.pdf" tt []
    = (tt, log', Return chunks)
    /\ Forall (fun c => stripped (page_content c) = true) chunks.
Proof.
  exact (load_and_process_documents_chunks_are_stripped unit always_exists
           (load_page padded_page) "docs/pdf.pdf" [] tt tt
           [{| page_content := padded_page; page := 0 |}]
           eq_refl eq_refl).
Defined.

(** The chunk of the padded page: the padding at its two ends is gone, the
    accented letter at its end is kept. *)
Example split_text_padded_page :
  Builder.split_text padded_page
  = Return [text "Luke Skywalker nasceu em Tatooine. " ++ Builder.separator
            ++ [32; 12288; 32]%N ++ Builder.separator
            ++ text "Leia Organa nasceu em Alderaã"].
Proof. reflexivity. Qed.
